(** * VTKWarp: the warped-surface animation of the gallery notebook

    A shallow embedding of [examples/gallery/demos/VTKWarp.ipynb].

    The notebook builds a 101 x 101 coordinate grid, samples the field
    [sin (((ys / alpha) ** alpha + time) * xs)] on it, stores the samples in
    a reference mesh, warps that mesh by its scalars, and binds a player
    widget to a callback that recomputes the field and refreshes the view.

    Conventions of the model.
    - float64 values are idealised as real numbers ([R]); where the ideal
      operation is undefined (a zero divisor) the model raises.
    - a two-dimensional array is the list of its rows; a one-dimensional
      array that is handed to a mesh lives in a store of buffers and is
      referred to by its address, because the notebook hands one and the
      same array to two meshes.
    - the Python namespace of the kernel is a record of optional bindings:
      a name that was not assigned yet is [None] and reading it raises
      [NameError].
    - the call of the field function, the flattening of its result and
      every call into the plotting and widget libraries leave an entry in a
      log, in execution order.
    - the first cell (the imports) and the arguments that only style the
      view (colour map, camera, sizes) are left out. *)

From Stdlib Require Import Reals Lra Lia ZArith List.
From stdpp Require Import base list strings gmap.
Import ListNotations.

Local Open Scope R_scope.

(** ** Exceptions and results *)

Inductive exn : Type :=
| NameError (name : string)
| ValueError (what : string)
| ZeroDivisionError
| IndexError
| KeyError (name : string)
| AttributeError (name : string).

Inductive result (A : Type) : Type :=
| Ok (a : A)
| Raise (e : exn).

Arguments Ok {A} a.
Arguments Raise {A} e.

(** ** The array library *)

Module np.

(** [np.linspace(start, stop, num)] with the default [endpoint=True]:
    [arange(0, num) * step + start], the last entry overwritten by
    [stop]. *)
Definition linspace (start stop : R) (num : nat) : list R :=
  let div := (num - 1)%nat in
  let delta := stop - start in
  let y := map INR (seq 0 num) in
  let y := if (0 <? div)%nat
           then map (fun v => v * (delta / INR div)) y
           else map (fun v => v * delta) y in
  let y := map (fun v => v + start) y in
  if (1 <? num)%nat then <[(num - 1)%nat := stop]> y else y.

(** [np.meshgrid(x, y)] with the default [indexing='xy']: both results
    have one row per entry of [y] and one column per entry of [x]. *)
Definition meshgrid (x y : list R) : list (list R) * list (list R) :=
  (map (fun _ => x) y, map (fun yi => map (fun _ => yi) x) y).

Definition shape (a : list (list R)) : list nat := map length a.

Definition has_zero (a : list (list R)) : bool :=
  existsb (existsb (fun v => if Req_dec_T v 0 then true else false)) a.

(** [a / s] for an array and a Python integer. The reals have no infinity:
    where numpy returns [inf] or [nan] with a warning (a zero divisor), the
    model raises. *)
Definition true_divide (a : list (list R)) (s : Z) : result (list (list R)) :=
  if (s =? 0)%Z then Raise ZeroDivisionError
  else Ok (map (map (fun v => v / IZR s)) a).

(** [a ** n] for an array and a Python integer; a zero base under a
    negative exponent, where numpy returns [inf], raises in the model. *)
Definition power (a : list (list R)) (n : Z) : result (list (list R)) :=
  if (n <? 0)%Z && has_zero a then Raise ZeroDivisionError
  else Ok (map (map (fun v => powerRZ v n)) a).

(** [a + t] for an array and a number. *)
Definition add (a : list (list R)) (t : R) : list (list R) :=
  map (map (fun v => v + t)) a.

(** [a * b] for two arrays. The model accepts equal shapes only and raises
    on the others, also on those numpy would broadcast. *)
Definition multiply (a b : list (list R)) : result (list (list R)) :=
  if decide (shape a = shape b)
  then Ok (zip_with (zip_with Rmult) a b)
  else Raise (ValueError "operands could not be broadcast together").

Definition sin (a : list (list R)) : list (list R) := map (map sin) a.

Definition ncols (a : list (list R)) : nat :=
  match a with [] => 0%nat | r :: _ => length r end.

Definition column (j : nat) (a : list (list R)) : list R :=
  map (fun r => nth j r 0) a.

(** [a.flatten(order='F')]: column-major, the row index runs fastest. *)
Definition flatten_F (a : list (list R)) : list R :=
  flat_map (fun j => column j a) (seq 0 (ncols a)).

(** [a.min()] *)
Definition min (a : list R) : result R :=
  match a with
  | [] => Raise (ValueError "zero-size array to reduction operation minimum")
  | v :: a' => Ok (fold_left Rmin a' v)
  end.

(** [a[i]] *)
Definition getitem (a : list R) (i : nat) : result R :=
  match a !! i with Some v => Ok v | None => Raise IndexError end.

End np.

(** ** Meshes, plotters, panes and the player *)

Definition point : Type := (R * R * R)%type.

(** A [pv.UniformGrid] has implicit points given by its dimensions, spacing
    and origin; a [pv.StructuredGrid] (what the warp filter returns for a
    uniform grid) stores its points. *)
Inductive geometry : Type :=
| Uniform (dims_ : nat * nat * nat) (spacing_ : R * R * R) (origin_ : R * R * R)
| Structured (pts : list point).

(** [point_arrays] maps a name to the address of the buffer it shares with
    the array that was appended under that name. *)
Record Mesh : Type := mkMesh {
  geom : geometry;
  point_arrays : gmap string nat
}.

(** Point [k] of a uniform grid: the x index runs fastest. *)
Definition uniform_point (d : nat * nat * nat) (sp og : R * R * R) (k : nat) : point :=
  let '(nx, ny, _) := d in
  let '(dx, dy, dz) := sp in
  let '(ox, oy, oz) := og in
  (ox + INR (k mod nx) * dx,
   oy + INR ((k / nx) mod ny) * dy,
   oz + INR (k / (nx * ny)) * dz).

Definition n_uniform (d : nat * nat * nat) : nat :=
  let '(nx, ny, nz) := d in (nx * ny * nz)%nat.

Definition points (m : Mesh) : list point :=
  match geom m with
  | Uniform d sp og => map (uniform_point d sp og) (seq 0 (n_uniform d))
  | Structured pts => pts
  end.

Definition n_points (m : Mesh) : nat := length (points m).

(** The scalar-warp filter moves every point along the normal [(0, 0, 1)]
    by [factor] times its scalar. *)
Definition warp_point (factor : R) (p : point) (s : R) : point :=
  let '(x, y, z) := p in (x, y, z + factor * s).

Inductive mesh_id : Type := id_mesh_ref | id_mesh_warped.
Inductive plotter_id : Type := id_pl_ref | id_pl.

(** A plotter knows the meshes that were added to it, by reference. *)
Record Plotter : Type := mkPlotter { actors : list mesh_id }.

(** What a pane last serialised of each mesh: its points and its scalars. *)
Definition Scene : Type := list (list point * list R).

Record Pane : Type := mkPane {
  ren_win : plotter_id;
  synced : option Scene
}.

Record Player : Type := mkPlayer {
  value : Z;
  start : Z;
  end_ : Z;
  interval : Z;
  loop_policy : string
}.

(** ** The log of library calls *)

Inductive Call : Type :=
| call_UniformGrid
| call_time_function (time : R)
| call_flatten (data : nat)
| call_append (m : mesh_id) (data : nat) (name : string)
| call_Plotter (p : plotter_id)
| call_add_mesh (p : plotter_id) (m : mesh_id)
| call_panel (p : plotter_id)
| call_display (p : plotter_id)
| call_warp_by_scalar (m : mesh_id) (factor : R)
| call_set_points (m : mesh_id)
| call_Player
| call_synchronize
| call_Column.

(** ** The kernel state *)

Record World : Type := mkWorld {
  alpha : option Z;
  xvals : option (list R);
  yvals : option (list R);
  xs : option (list (list R));
  ys : option (list (list R));
  mesh_ref : option Mesh;
  pl_ref : option Plotter;
  mesh_warped : option Mesh;
  pl : option Plotter;
  vtkpan : option Pane;
  frame : option Player;
  heap : list (list R);
  log : list Call
}.

Definition empty_world : World :=
  mkWorld None None None None None None None None None None None [] [].

Definition set_alpha (v : Z) (w : World) : World :=
  mkWorld (Some v) (xvals w) (yvals w) (xs w) (ys w) (mesh_ref w) (pl_ref w)
          (mesh_warped w) (pl w) (vtkpan w) (frame w) (heap w) (log w).
Definition set_xvals (v : list R) (w : World) : World :=
  mkWorld (alpha w) (Some v) (yvals w) (xs w) (ys w) (mesh_ref w) (pl_ref w)
          (mesh_warped w) (pl w) (vtkpan w) (frame w) (heap w) (log w).
Definition set_yvals (v : list R) (w : World) : World :=
  mkWorld (alpha w) (xvals w) (Some v) (xs w) (ys w) (mesh_ref w) (pl_ref w)
          (mesh_warped w) (pl w) (vtkpan w) (frame w) (heap w) (log w).
Definition set_xs (v : list (list R)) (w : World) : World :=
  mkWorld (alpha w) (xvals w) (yvals w) (Some v) (ys w) (mesh_ref w) (pl_ref w)
          (mesh_warped w) (pl w) (vtkpan w) (frame w) (heap w) (log w).
Definition set_ys (v : list (list R)) (w : World) : World :=
  mkWorld (alpha w) (xvals w) (yvals w) (xs w) (Some v) (mesh_ref w) (pl_ref w)
          (mesh_warped w) (pl w) (vtkpan w) (frame w) (heap w) (log w).
Definition set_mesh_ref (v : Mesh) (w : World) : World :=
  mkWorld (alpha w) (xvals w) (yvals w) (xs w) (ys w) (Some v) (pl_ref w)
          (mesh_warped w) (pl w) (vtkpan w) (frame w) (heap w) (log w).
Definition set_pl_ref (v : Plotter) (w : World) : World :=
  mkWorld (alpha w) (xvals w) (yvals w) (xs w) (ys w) (mesh_ref w) (Some v)
          (mesh_warped w) (pl w) (vtkpan w) (frame w) (heap w) (log w).
Definition set_mesh_warped (v : Mesh) (w : World) : World :=
  mkWorld (alpha w) (xvals w) (yvals w) (xs w) (ys w) (mesh_ref w) (pl_ref w)
          (Some v) (pl w) (vtkpan w) (frame w) (heap w) (log w).
Definition set_pl (v : Plotter) (w : World) : World :=
  mkWorld (alpha w) (xvals w) (yvals w) (xs w) (ys w) (mesh_ref w) (pl_ref w)
          (mesh_warped w) (Some v) (vtkpan w) (frame w) (heap w) (log w).
Definition set_vtkpan (v : Pane) (w : World) : World :=
  mkWorld (alpha w) (xvals w) (yvals w) (xs w) (ys w) (mesh_ref w) (pl_ref w)
          (mesh_warped w) (pl w) (Some v) (frame w) (heap w) (log w).
Definition set_frame (v : Player) (w : World) : World :=
  mkWorld (alpha w) (xvals w) (yvals w) (xs w) (ys w) (mesh_ref w) (pl_ref w)
          (mesh_warped w) (pl w) (vtkpan w) (Some v) (heap w) (log w).
Definition set_heap (v : list (list R)) (w : World) : World :=
  mkWorld (alpha w) (xvals w) (yvals w) (xs w) (ys w) (mesh_ref w) (pl_ref w)
          (mesh_warped w) (pl w) (vtkpan w) (frame w) v (log w).
Definition set_log (v : list Call) (w : World) : World :=
  mkWorld (alpha w) (xvals w) (yvals w) (xs w) (ys w) (mesh_ref w) (pl_ref w)
          (mesh_warped w) (pl w) (vtkpan w) (frame w) (heap w) v.

(** ** The state-and-exception monad of the kernel *)

Definition M (A : Type) : Type := World -> result (A * World).

Definition ret {A : Type} (a : A) : M A := fun w => Ok (a, w).

Definition bind {A B : Type} (c : M A) (k : A -> M B) : M B :=
  fun w => match c w with
           | Ok (a, w') => k a w'
           | Raise e => Raise e
           end.

Definition raise {A : Type} (e : exn) : M A := fun _ => Raise e.

Definition lift {A : Type} (r : result A) : M A :=
  fun w => match r with Ok a => Ok (a, w) | Raise e => Raise e end.

Declare Scope kernel_scope.
Delimit Scope kernel_scope with kernel.
Notation "x <- c ;; k" := (bind c (fun x => k))
  (at level 100, c at next level, right associativity) : kernel_scope.
Notation "c ;; k" := (bind c (fun _ => k))
  (at level 100, right associativity) : kernel_scope.
Local Open Scope kernel_scope.

(** Reading a global name. *)
Definition name {A : Type} (proj : World -> option A) (n : string) : M A :=
  fun w => match proj w with
           | Some v => Ok (v, w)
           | None => Raise (NameError n)
           end.

(** Assigning to a global name, or mutating the object bound to it. *)
Definition assign {A : Type} (setter : A -> World -> World) (v : A) : M unit :=
  fun w => Ok (tt, setter v w).

Definition record (c : Call) : M unit :=
  fun w => Ok (tt, set_log (log w ++ [c]) w).

(** A fresh buffer at the next free address. *)
Definition alloc (d : list R) : M nat :=
  fun w => Ok (length (heap w), set_heap (heap w ++ [d]) w).

(** Reading the buffer at an address. Addresses come from [alloc] only, so
    the failure below does not occur in a run of the notebook. *)
Definition deref (l : nat) : M (list R) :=
  fun w => match heap w !! l with
           | Some d => Ok (d, w)
           | None => Raise (ValueError "dangling buffer")
           end.

Definition get_mesh (i : mesh_id) : M Mesh :=
  match i with
  | id_mesh_ref => name mesh_ref "mesh_ref"
  | id_mesh_warped => name mesh_warped "mesh_warped"
  end.

Definition put_mesh (i : mesh_id) (m : Mesh) : M unit :=
  match i with
  | id_mesh_ref => assign set_mesh_ref m
  | id_mesh_warped => assign set_mesh_warped m
  end.

Definition get_plotter (i : plotter_id) : M Plotter :=
  match i with
  | id_pl_ref => name pl_ref "pl_ref"
  | id_pl => name pl "pl"
  end.

Definition put_plotter (i : plotter_id) (p : Plotter) : M unit :=
  match i with
  | id_pl_ref => assign set_pl_ref p
  | id_pl => assign set_pl p
  end.

(** ** The mesh library *)

Module pv.

(** [pv.UniformGrid(dims, spacing, origin)] *)
Definition UniformGrid (d : nat * nat * nat) (sp og : R * R * R) : M Mesh :=
  record call_UniformGrid;;
  ret (mkMesh (Uniform d sp og) ∅).

(** [mesh.point_arrays.append(data, name)]: the array must have one entry
    per point; an array of that name is replaced. The mesh keeps a
    reference to the buffer, not a copy. *)
Definition append (i : mesh_id) (data : nat) (nm : string) : M unit :=
  m <- get_mesh i;;
  record (call_append i data nm);;
  d <- deref data;;
  if (length d =? n_points m)%nat
  then put_mesh i (mkMesh (geom m) (<[nm := data]> (point_arrays m)))
  else raise (ValueError "array length must match the number of points").

(** [mesh.warp_by_scalar(factor=factor)]: a new structured grid whose
    points are the warped points of [mesh]; the point data is passed
    through. The notebook stores a single point array, ['scalars'], which
    is the active one; the model looks the scalars up by that name, and its
    result refers to the buffer of the source where the library copies it
    (the notebook reads only the points of a warp of its own). *)
Definition warp_by_scalar (i : mesh_id) (factor : R) : M Mesh :=
  m <- get_mesh i;;
  record (call_warp_by_scalar i factor);;
  match point_arrays m !! "scalars" with
  | None => raise (KeyError "scalars")
  | Some l =>
      d <- deref l;;
      ret (mkMesh (Structured (zip_with (warp_point factor) (points m) d))
                  (point_arrays m))
  end.

(** [mesh.points = pts] *)
Definition set_points (i : mesh_id) (pts : list point) : M unit :=
  m <- get_mesh i;;
  record (call_set_points i);;
  match geom m with
  | Structured _ => put_mesh i (mkMesh (Structured pts) (point_arrays m))
  | Uniform _ _ _ => raise (AttributeError "points")
  end.

(** [pv.Plotter()] *)
Definition Plotter (i : plotter_id) : M Plotter :=
  record (call_Plotter i);;
  ret (mkPlotter []).

(** [plotter.add_mesh(mesh, cmap='rainbow')] *)
Definition add_mesh (ip : plotter_id) (im : mesh_id) : M unit :=
  p <- get_plotter ip;;
  _ <- get_mesh im;;
  record (call_add_mesh ip im);;
  put_plotter ip (mkPlotter (actors p ++ [im])).

End pv.

(** ** The widget library *)

Module pn.

(** [pn.panel(plotter.ren_win, ...)]: a pane on the plotter's render
    window; nothing is serialised yet. *)
Definition panel (ip : plotter_id) : M Pane :=
  _ <- get_plotter ip;;
  record (call_panel ip);;
  ret (mkPane ip None).

(** A pane that is the value of a cell's last expression is displayed. *)
Definition display (p : Pane) : M unit :=
  record (call_display (ren_win p)).

(** [pn.widgets.Player(value, start, end, interval, loop_policy)] *)
Definition Player (v s e i : Z) (lp : string) : M Player :=
  record call_Player;;
  ret (mkPlayer v s e i lp).

(** The state of the meshes of a plotter, as a pane serialises it. *)
Fixpoint snapshot (ms : list mesh_id) : M Scene :=
  match ms with
  | [] => ret []
  | i :: ms' =>
      m <- get_mesh i;;
      d <- match point_arrays m !! "scalars" with
           | Some l => deref l
           | None => ret []
           end;;
      rest <- snapshot ms';;
      ret ((points m, d) :: rest)
  end.

(** [vtkpan.synchronize()]: serialise the current state of the render
    window again. *)
Definition synchronize : M unit :=
  pane <- name vtkpan "vtkpan";;
  record call_synchronize;;
  p <- get_plotter (ren_win pane);;
  sc <- snapshot (actors p);;
  assign set_vtkpan (mkPane (ren_win pane) (Some sc)).

(** [pn.Column(frame, vtkpan, f, ...).servable()] for a function [f] bound
    to the player's value: building the layout evaluates [f] once, at the
    value the player has then; the layout is the value of the last cell and
    is displayed. *)
Definition Column (f : Z -> M unit) : M unit :=
  p <- name frame "frame";;
  _ <- name vtkpan "vtkpan";;
  f (value p);;
  record call_Column.

End pn.

(** ** The notebook *)

(** [def time_function(time): return np.sin(((ys/alpha)**alpha+time)*xs)] *)
Definition time_function (time : R) : M (list (list R)) :=
  record (call_time_function time);;
  ys' <- name ys "ys";;
  a <- name alpha "alpha";;
  q <- lift (np.true_divide ys' a);;
  a' <- name alpha "alpha";;
  p <- lift (np.power q a');;
  xs' <- name xs "xs";;
  m <- lift (np.multiply (np.add p time) xs');;
  ret (np.sin m).

(** [a.flatten(order='F')] returns a new array. *)
Definition flatten (a : list (list R)) : M nat :=
  l <- alloc (np.flatten_F a);;
  record (call_flatten l);;
  ret l.

(** The second cell: the grid, the field function and the reference mesh,
    which is shown in a pane of its own. *)
Definition cell2 : M unit :=
  assign set_alpha 2%Z;;
  assign set_xvals (np.linspace (-4) 4 101);;
  assign set_yvals (np.linspace (-4) 4 101);;
  xv <- name xvals "xvals";;
  yv <- name yvals "yvals";;
  let grids := np.meshgrid xv yv in
  assign set_xs (fst grids);;
  assign set_ys (snd grids);;
  xv <- name xvals "xvals";;
  yv <- name yvals "yvals";;
  x1 <- lift (np.getitem xv 1);;
  x0 <- lift (np.getitem xv 0);;
  y1 <- lift (np.getitem yv 1);;
  y0 <- lift (np.getitem yv 0);;
  xmin <- lift (np.min xv);;
  ymin <- lift (np.min yv);;
  m <- pv.UniformGrid (length xv, length yv, 1%nat)
                      (x1 - x0, y1 - y0, 1) (xmin, ymin, 0);;
  assign set_mesh_ref m;;
  field <- time_function 0;;
  data <- flatten field;;
  pv.append id_mesh_ref data "scalars";;
  p <- pv.Plotter id_pl_ref;;
  assign set_pl_ref p;;
  pv.add_mesh id_pl_ref id_mesh_ref;;
  pane <- pn.panel id_pl_ref;;
  pn.display pane.

(** The callback bound to the player's value. [frame / 5] is taken over
    the reals: Python's division of integers raises [OverflowError] once
    the quotient leaves the range of float64, far outside the values of
    the player, and that is not modelled. *)
Definition update_3d_warp (frame : Z) : M unit :=
  let time := IZR frame / 5 in
  field <- time_function time;;
  data <- flatten field;;
  pv.append id_mesh_ref data "scalars";;
  pv.append id_mesh_warped data "scalars";;
  m <- pv.warp_by_scalar id_mesh_ref 0.5;;
  pv.set_points id_mesh_warped (points m);;
  pn.synchronize.

(** The third cell: the warped mesh, its plotter and pane, the player. *)
Definition cell3 : M unit :=
  m <- pv.warp_by_scalar id_mesh_ref 1;;
  assign set_mesh_warped m;;
  p <- pv.Plotter id_pl;;
  assign set_pl p;;
  pv.add_mesh id_pl id_mesh_warped;;
  pane <- pn.panel id_pl;;
  assign set_vtkpan pane;;
  f <- pn.Player 0 0 50 100 "reflect";;
  assign set_frame f;;
  pn.Column update_3d_warp.

Definition notebook : M unit := cell2;; cell3.

(** [@pn.depends(frame=frame.param.value)]: a change of the player's value
    calls the callback with the new value. *)
Definition set_value (v : Z) : M unit :=
  p <- name frame "frame";;
  if (v =? value p)%Z then ret tt
  else
    assign set_frame (mkPlayer v (start p) (end_ p) (interval p) (loop_policy p));;
    update_3d_warp v.

(** The callback run once for each of a sequence of player values. *)
Fixpoint play (vs : list Z) : M unit :=
  match vs with
  | [] => ret tt
  | v :: vs' => update_3d_warp v;; play vs'
  end.

(** * Derived notions *)

(** The coordinate arrays as the second cell computes them. *)
Definition grid_xvals : list R := np.linspace (-4) 4 101.
Definition grid_yvals : list R := np.linspace (-4) 4 101.
Definition grid_xs : list (list R) := fst (np.meshgrid grid_xvals grid_yvals).
Definition grid_ys : list (list R) := snd (np.meshgrid grid_xvals grid_yvals).

(** [a[i, j]] *)
Definition entry (a : list (list R)) (i j : nat) : option R :=
  match a !! i with Some r => r !! j | None => None end.

(** The array [time_function] computes on the grid of the second cell. *)
Definition field (t : R) : list (list R) :=
  np.sin
    (zip_with (zip_with Rmult)
       (np.add (map (map (fun v => powerRZ v 2))
                    (map (map (fun v => v / IZR 2)) grid_ys)) t)
       grid_xs).

(** The closed form of the field at one grid point, with [alpha = 2]. *)
Definition closed_form (t x y : R) : R := Rtrigo_def.sin (((y / 2) ^ 2 + t) * x).

(** The grid bindings that the field function reads. *)
Record grid_bound (w : World) : Prop := mk_grid_bound {
  bound_alpha : alpha w = Some 2%Z;
  bound_xvals : xvals w = Some grid_xvals;
  bound_yvals : yvals w = Some grid_yvals;
  bound_xs : xs w = Some grid_xs;
  bound_ys : ys w = Some grid_ys
}.

(** The number of grid points. *)
Definition n_grid : nat := (101 * 101)%nat.

(** What the callback needs of the kernel state: the grid of the second
    cell, a reference mesh with one point per grid point, a warped mesh
    with stored points, one per grid point, and the pane on the plotter
    that shows the warped mesh. *)
Record ready (w : World) : Prop := mk_ready {
  ready_grid : grid_bound w;
  ready_ref : exists mr, mesh_ref w = Some mr /\ n_points mr = n_grid;
  ready_warped : exists pts pa,
      mesh_warped w = Some (mkMesh (Structured pts) pa) /\ length pts = n_grid;
  ready_pl : pl w = Some (mkPlotter [id_mesh_warped]);
  ready_vtkpan : exists sc, vtkpan w = Some (mkPane id_pl sc);
  ready_frame : exists p, frame w = Some p
}.

(** The time the callback derives from a player value. *)
Definition frame_time (v : Z) : R := IZR v / 5.

(** The player values whose fifth Python's integer division turns into a
    float64: the quotient rounds to a finite double exactly when its
    magnitude is below [2 ^ 1024 - 2 ^ 970]; beyond, [frame / 5] raises
    [OverflowError]. *)
Definition time_representable (v : Z) : Prop :=
  (Z.abs v < 5 * (2 ^ 1024 - 2 ^ 970))%Z.

(** The calls of one run of the callback, [l] being the address of the new
    data array. *)
Definition redraw_calls (v : Z) (l : nat) : list Call :=
  [ call_time_function (frame_time v);
    call_flatten l;
    call_append id_mesh_ref l "scalars";
    call_append id_mesh_warped l "scalars";
    call_warp_by_scalar id_mesh_ref 0.5;
    call_set_points id_mesh_warped;
    call_synchronize ].

(** The kernel state after the callback ran for the player value [v] in the
    state [w], whose meshes were [mr] and [mw]. *)
Definition redrawn (v : Z) (mr mw : Mesh) (w : World) : World :=
  let l := length (heap w) in
  let data := np.flatten_F (field (frame_time v)) in
  let pts := zip_with (warp_point 0.5) (points mr) data in
  mkWorld (alpha w) (xvals w) (yvals w) (xs w) (ys w)
          (Some (mkMesh (geom mr) (<["scalars" := l]> (point_arrays mr))))
          (pl_ref w)
          (Some (mkMesh (Structured pts) (<["scalars" := l]> (point_arrays mw))))
          (pl w)
          (Some (mkPane id_pl (Some [(pts, data)])))
          (frame w)
          (heap w ++ [data])
          (log w ++ redraw_calls v l).

(** Entry [i] of the coordinate arrays, for [i < 100]. *)
Definition coordinate (i : nat) : R := INR i * ((4 - -4) / INR (101 - 1)) + -4.

(** The least entry of a non-empty array. *)
Definition list_min (l : list R) : R :=
  match l with [] => 0 | v :: l' => fold_left Rmin l' v end.

(** The array of the field at a given time, as it is handed to the meshes. *)
Definition field_data (t : R) : list R := np.flatten_F (field t).

(** The reference mesh as the second cell leaves it and the warped mesh as
    the third cell creates it. *)
Definition cell2_mesh_ref : Mesh :=
  mkMesh (Uniform (101, 101, 1)%nat
                  (coordinate 1 - coordinate 0, coordinate 1 - coordinate 0, 1)
                  (list_min grid_xvals, list_min grid_yvals, 0))
         (<["scalars" := 0%nat]> ∅).

Definition created_mesh_warped : Mesh :=
  mkMesh (Structured (zip_with (warp_point 1) (points cell2_mesh_ref)
                               (field_data 0)))
         (<["scalars" := 0%nat]> ∅).

(** The kernel state of the third cell just before its last line, the
    layout. *)
Definition created : World :=
  mkWorld (Some 2%Z) (Some grid_xvals) (Some grid_yvals)
          (Some grid_xs) (Some grid_ys)
          (Some cell2_mesh_ref) (Some (mkPlotter [id_mesh_ref]))
          (Some created_mesh_warped) (Some (mkPlotter [id_mesh_warped]))
          (Some (mkPane id_pl None))
          (Some (mkPlayer 0 0 50 100 "reflect"))
          [field_data 0]
          [ call_UniformGrid;
            call_time_function 0;
            call_flatten 0;
            call_append id_mesh_ref 0 "scalars";
            call_Plotter id_pl_ref;
            call_add_mesh id_pl_ref id_mesh_ref;
            call_panel id_pl_ref;
            call_display id_pl_ref;
            call_warp_by_scalar id_mesh_ref 1;
            call_Plotter id_pl;
            call_add_mesh id_pl id_mesh_warped;
            call_panel id_pl;
            call_Player ].

(** The reference mesh and the warped mesh as the notebook leaves them:
    the layout has run the callback for the player's value 0. *)
Definition initial_mesh_ref : Mesh :=
  mkMesh (geom cell2_mesh_ref)
         (<["scalars" := 1%nat]> (point_arrays cell2_mesh_ref)).

Definition initial_mesh_warped : Mesh :=
  mkMesh (Structured (zip_with (warp_point 0.5) (points cell2_mesh_ref)
                               (np.flatten_F (field (frame_time 0)))))
         (<["scalars" := 1%nat]> (point_arrays created_mesh_warped)).

(** The calls of the two cells. *)
Definition setup_calls : list Call :=
  [ call_UniformGrid;
    call_time_function 0;
    call_flatten 0;
    call_append id_mesh_ref 0 "scalars";
    call_Plotter id_pl_ref;
    call_add_mesh id_pl_ref id_mesh_ref;
    call_panel id_pl_ref;
    call_display id_pl_ref;
    call_warp_by_scalar id_mesh_ref 1;
    call_Plotter id_pl;
    call_add_mesh id_pl id_mesh_warped;
    call_panel id_pl;
    call_Player;
    call_time_function (frame_time 0);
    call_flatten 1;
    call_append id_mesh_ref 1 "scalars";
    call_append id_mesh_warped 1 "scalars";
    call_warp_by_scalar id_mesh_ref 0.5;
    call_set_points id_mesh_warped;
    call_synchronize;
    call_Column ].

(** The kernel state once both cells have run. *)
Definition initial : World :=
  mkWorld (Some 2%Z) (Some grid_xvals) (Some grid_yvals)
          (Some grid_xs) (Some grid_ys)
          (Some initial_mesh_ref) (Some (mkPlotter [id_mesh_ref]))
          (Some initial_mesh_warped) (Some (mkPlotter [id_mesh_warped]))
          (Some (mkPane id_pl
                   (Some [(points initial_mesh_warped,
                           np.flatten_F (field (frame_time 0)))])))
          (Some (mkPlayer 0 0 50 100 "reflect"))
          [field_data 0; np.flatten_F (field (frame_time 0))] setup_calls.

(** The notebook followed by one run of the callback for each of the player
    values [vs]. *)
Definition session (vs : list Z) : M unit := notebook;; play vs.

(** The bindings of the second cell that make up the grid. *)
Definition coords (w : World) :
  option Z * option (list R) * option (list R)
  * option (list (list R)) * option (list (list R)) :=
  (alpha w, xvals w, yvals w, xs w, ys w).

(** A computation keeps the coordinates when every normal return leaves the
    five bindings as they were. *)
Definition keeps_coords {A : Type} (c : M A) : Prop :=
  forall w a w', c w = Ok (a, w') -> coords w' = coords w.

(** The range of the sine. *)
Definition in_unit_interval (s : R) : Prop := -1 <= s <= 1.

(** The calls that put a scene on the screen: the display of a pane or of
    the layout, and a synchronisation. *)
Definition renders (c : Call) : bool :=
  match c with
  | call_display _ | call_synchronize | call_Column => true
  | _ => false
  end.

(** The order of the setup as the specification words it: the field is
    computed at time 0, appended to the reference mesh, and then the warped
    mesh is derived, before any rendering. *)
Definition setup_order_as_stated (lg : list Call) : Prop :=
  exists i j k,
    lg !! i = Some (call_time_function 0) /\
    lg !! j = Some (call_append id_mesh_ref 0 "scalars") /\
    lg !! k = Some (call_warp_by_scalar id_mesh_ref 1) /\
    (i < j)%nat /\ (j < k)%nat /\
    forall n c, lg !! n = Some c -> renders c = true -> (k < n)%nat.

(** ** Notions for the further properties *)

(** The point of the warped surface over [(X, Y)] at time [t]. *)
Definition surface_point (factor t X Y : R) : point :=
  (X, Y, factor * Rtrigo_def.sin (((X / 2) ^ 2 + t) * Y)).

(** The states of a running animation: ready, with the reference mesh on
    the geometry the second cell gave it. *)
Record settled (w : World) : Prop := mk_settled {
  settled_ready : ready w;
  settled_ref : exists pa,
      mesh_ref w = Some (mkMesh (geom initial_mesh_ref) pa)
}.

(** The calls of the runs of the callback for the player values [vs], the
    first new array getting the address [l]. *)
Fixpoint play_calls (l : nat) (vs : list Z) : list Call :=
  match vs with
  | [] => []
  | v :: vs' => redraw_calls v l ++ play_calls (S l) vs'
  end.

(** A computation preserves a relation between states when every normal
    return is related to the state it started from. *)
Definition preserves (Rel : World -> World -> Prop) {A : Type} (c : M A) : Prop :=
  forall w a w', c w = Ok (a, w') -> Rel w w'.

(** What a run of the callback leaves alone: the plotters, the player and
    the geometry of the reference mesh stay, the store and the log only
    grow at the end. *)
Definition grows (w w' : World) : Prop :=
  pl_ref w' = pl_ref w /\ pl w' = pl w /\ frame w' = frame w /\
  geom <$> mesh_ref w' = geom <$> mesh_ref w /\
  heap w `prefix_of` heap w' /\ log w `prefix_of` log w'.

(** A small state to try the field function on: [alpha = 3] and a grid of
    one row and two columns. *)
Definition toy_world : World :=
  set_alpha 3 (set_xs [[1; 2]] (set_ys [[3; 4]] empty_world)).

(** The kernel state once the second cell has run, before the third. *)
Definition after_cell2 : World :=
  mkWorld (Some 2%Z) (Some grid_xvals) (Some grid_yvals)
          (Some grid_xs) (Some grid_ys)
          (Some cell2_mesh_ref) (Some (mkPlotter [id_mesh_ref]))
          None None None None
          [field_data 0]
          [ call_UniformGrid;
            call_time_function 0;
            call_flatten 0;
            call_append id_mesh_ref 0 "scalars";
            call_Plotter id_pl_ref;
            call_add_mesh id_pl_ref id_mesh_ref;
            call_panel id_pl_ref;
            call_display id_pl_ref ].

(** The state of the notebook with a reference mesh of four points in
    place of the one on the grid. *)
Definition small_mesh_world : World :=
  set_mesh_ref (mkMesh (Uniform (2, 2, 1)%nat (1, 1, 1) (0, 0, 0)) ∅) initial.

(** * Properties *)

(** ** The grid *)

Arguments grid_xvals : simpl never.
Arguments grid_yvals : simpl never.
Arguments grid_xs : simpl never.
Arguments grid_ys : simpl never.

Lemma length_linspace (a b : R) (n : nat) : length (np.linspace a b n) = n.
Proof.
  unfold np.linspace.
  destruct (1 <? n)%nat, (0 <? n - 1)%nat;
    rewrite ?length_insert, !length_map, length_seq; reflexivity.
Qed.

Lemma lookup_linspace (a b : R) (n i : nat) :
  (S i < n)%nat ->
  np.linspace a b n !! i = Some (INR i * ((b - a) / INR (n - 1)) + a).
Proof.
  intros Hi. unfold np.linspace.
  assert (H1 : (1 <? n)%nat = true) by (apply Nat.ltb_lt; lia).
  assert (H2 : (0 <? n - 1)%nat = true) by (apply Nat.ltb_lt; lia).
  rewrite H1, H2.
  rewrite list_lookup_insert_ne by lia.
  rewrite !list_lookup_fmap.
  assert (Hs : seq 0 n !! i = Some i) by (apply lookup_seq; split; lia).
  rewrite Hs. reflexivity.
Qed.

Lemma length_grid_xvals : length grid_xvals = 101%nat.
Proof. apply length_linspace. Qed.

Lemma length_grid_yvals : length grid_yvals = 101%nat.
Proof. apply length_linspace. Qed.

Lemma lookup_grid_xs (i : nat) (y : R) :
  grid_yvals !! i = Some y -> grid_xs !! i = Some grid_xvals.
Proof.
  intros Hy. unfold grid_xs, np.meshgrid. cbn [fst].
  rewrite list_lookup_fmap, Hy. reflexivity.
Qed.

Lemma lookup_grid_ys (i : nat) (y : R) :
  grid_yvals !! i = Some y ->
  grid_ys !! i = Some (map (fun _ => y) grid_xvals).
Proof.
  intros Hy. unfold grid_ys, np.meshgrid. cbn [snd].
  rewrite list_lookup_fmap, Hy. reflexivity.
Qed.

Lemma entry_grid_xs (i j : nat) (x y : R) :
  grid_yvals !! i = Some y -> grid_xvals !! j = Some x ->
  entry grid_xs i j = Some x.
Proof.
  intros Hy Hx. unfold entry. rewrite (lookup_grid_xs i y Hy). exact Hx.
Qed.

Lemma entry_grid_ys (i j : nat) (x y : R) :
  grid_yvals !! i = Some y -> grid_xvals !! j = Some x ->
  entry grid_ys i j = Some y.
Proof.
  intros Hy Hx. unfold entry. rewrite (lookup_grid_ys i y Hy).
  rewrite list_lookup_fmap, Hx. reflexivity.
Qed.

Lemma map_const_repeat {A B : Type} (c : B) (l : list A) :
  map (fun _ => c) l = repeat c (length l).
Proof. induction l as [|v l IH]; cbn; [reflexivity | now rewrite IH]. Qed.

Lemma shape_grid_xs : np.shape grid_xs = repeat 101%nat 101.
Proof.
  unfold np.shape, grid_xs, np.meshgrid. cbn [fst].
  rewrite map_map, map_const_repeat, length_grid_xvals, length_grid_yvals.
  reflexivity.
Qed.

Lemma shape_grid_ys : np.shape grid_ys = repeat 101%nat 101.
Proof.
  unfold np.shape, grid_ys, np.meshgrid. cbn [snd].
  rewrite map_map.
  rewrite (map_ext _ (fun _ => 101%nat)).
  - now rewrite map_const_repeat, length_grid_yvals.
  - intros y. now rewrite length_map, length_grid_xvals.
Qed.

(** ** The field *)

Lemma shape_map_map (f : R -> R) (a : list (list R)) :
  np.shape (map (map f) a) = np.shape a.
Proof.
  unfold np.shape. rewrite map_map. apply map_ext. intros r. apply length_map.
Qed.

Lemma shape_zip_with (f : R -> R -> R) (a b : list (list R)) :
  np.shape a = np.shape b -> np.shape (zip_with (zip_with f) a b) = np.shape a.
Proof.
  unfold np.shape. revert b.
  induction a as [|r a IH]; intros [|s b] H; try discriminate; [reflexivity|].
  cbn in *. injection H as H1 H2. f_equal.
  - rewrite length_zip_with. lia.
  - apply IH, H2.
Qed.

Lemma shape_field (t : R) : np.shape (field t) = repeat 101%nat 101.
Proof.
  unfold field, np.sin, np.add.
  rewrite shape_map_map, shape_zip_with;
    rewrite !shape_map_map, ?shape_grid_ys, ?shape_grid_xs; reflexivity.
Qed.

Lemma entry_map_map (f : R -> R) (a : list (list R)) (i j : nat) :
  entry (map (map f) a) i j = option_map f (entry a i j).
Proof.
  unfold entry. rewrite list_lookup_fmap.
  destruct (a !! i) as [r|]; cbn; [|reflexivity].
  rewrite list_lookup_fmap. destruct (r !! j); reflexivity.
Qed.

Lemma entry_zip_with (f : R -> R -> R) (a b : list (list R)) (i j : nat) :
  entry (zip_with (zip_with f) a b) i j =
  match entry a i j, entry b i j with
  | Some u, Some v => Some (f u v)
  | _, _ => None
  end.
Proof.
  unfold entry. rewrite lookup_zip_with.
  destruct (a !! i) as [r|]; cbn; [|reflexivity].
  destruct (b !! i) as [s|]; cbn.
  - rewrite lookup_zip_with.
    destruct (r !! j); cbn; [|reflexivity]. destruct (s !! j); reflexivity.
  - destruct (r !! j); reflexivity.
Qed.

Lemma entry_field (t : R) (i j : nat) :
  entry (field t) i j =
  match entry grid_ys i j, entry grid_xs i j with
  | Some y, Some x => Some (closed_form t x y)
  | _, _ => None
  end.
Proof.
  unfold field, np.sin, np.add.
  rewrite entry_map_map, entry_zip_with, !entry_map_map.
  destruct (entry grid_ys i j) as [y|]; cbn [option_map]; [|reflexivity].
  destruct (entry grid_xs i j) as [x|]; cbn [option_map]; [|reflexivity].
  unfold closed_form. do 3 f_equal.
Qed.

(** ** Running the kernel monad *)

Ltac kernel_step :=
  cbv beta iota delta
      [bind ret raise lift name assign record alloc deref pn.snapshot
       get_mesh put_mesh get_plotter put_plotter
       set_alpha set_xvals set_yvals set_xs set_ys set_mesh_ref set_pl_ref
       set_mesh_warped set_pl set_vtkpan set_frame set_heap set_log
       alpha xvals yvals xs ys mesh_ref pl_ref mesh_warped pl vtkpan frame
       heap log geom point_arrays actors ren_win synced value].

Ltac world_fields w :=
  destruct w as [w_alpha w_xvals w_yvals w_xs w_ys w_mesh_ref w_pl_ref
                 w_mesh_warped w_pl w_vtkpan w_frame w_heap w_log];
  cbn [alpha xvals yvals xs ys mesh_ref pl_ref mesh_warped pl vtkpan frame
       heap log] in *.

Lemma time_function_run (t : R) (w : World) :
  grid_bound w ->
  time_function t w = Ok (field t, set_log (log w ++ [call_time_function t]) w).
Proof.
  intros [Ha _ _ Hxs Hys]. world_fields w. subst.
  unfold time_function. kernel_step.
  unfold np.true_divide, np.power. cbn [Z.eqb Z.ltb Z.compare andb].
  kernel_step.
  unfold np.multiply.
  destruct (decide _) as [_|Hne].
  - reflexivity.
  - exfalso. apply Hne. unfold np.add.
    now rewrite !shape_map_map, shape_grid_ys, shape_grid_xs.
Qed.

(** ** Flattening *)

Lemma length_flat_map_const {A B : Type} (f : A -> list B) (c : nat) (l : list A) :
  (forall x, length (f x) = c) -> length (flat_map f l) = (length l * c)%nat.
Proof.
  intros Hf. induction l as [|x l IH]; cbn; [reflexivity|].
  rewrite length_app, Hf, IH. reflexivity.
Qed.

Lemma length_flatten_F (a : list (list R)) :
  length (np.flatten_F a) = (np.ncols a * length a)%nat.
Proof.
  unfold np.flatten_F.
  rewrite (length_flat_map_const _ (length a)).
  - now rewrite length_seq.
  - intros j. unfold np.column. apply length_map.
Qed.

Lemma shape_repeat_dims (a : list (list R)) (c n : nat) :
  np.shape a = repeat c (S n) -> np.ncols a = c /\ length a = S n.
Proof.
  intros H. split.
  - destruct a as [|r a]; [discriminate|]. cbn in H. now injection H.
  - unfold np.shape in H. apply (f_equal length) in H.
    now rewrite length_map, repeat_length in H.
Qed.

Lemma length_flatten_field (t : R) : length (np.flatten_F (field t)) = n_grid.
Proof.
  rewrite length_flatten_F.
  destruct (shape_repeat_dims (field t) 101 100 (shape_field t)) as [-> ->].
  reflexivity.
Qed.

(** Entry [i + j * nrows] of the flattened array is [a[i, j]]. *)
Lemma lookup_flat_map_const {A : Type} (f : nat -> list A) (c n i j : nat) :
  (forall x, length (f x) = c) -> (i < c)%nat -> (j < n)%nat ->
  flat_map f (seq 0 n) !! (i + j * c)%nat = f j !! i.
Proof.
  intros Hf Hi. revert j.
  assert (G : forall s j, (j < n)%nat ->
            flat_map f (seq s n) !! (i + j * c)%nat = f (s + j)%nat !! i).
  { induction n as [|n IH]; intros s j Hj; [lia|].
    cbn [seq flat_map]. destruct j as [|j].
    - rewrite lookup_app_l by (rewrite Hf; lia).
      replace (i + 0 * c)%nat with i by lia.
      replace (s + 0)%nat with s by lia. reflexivity.
    - rewrite lookup_app_r by (rewrite Hf; lia).
      rewrite Hf.
      replace (i + S j * c - c)%nat with (i + j * c)%nat by lia.
      rewrite IH by lia.
      replace (S s + j)%nat with (s + S j)%nat by lia. reflexivity. }
  intros j Hj. now rewrite G.
Qed.

Lemma lookup_flatten_F (a : list (list R)) (i j : nat) (v : R) :
  (j < np.ncols a)%nat -> entry a i j = Some v ->
  np.flatten_F a !! (i + j * length a)%nat = Some v.
Proof.
  intros Hj He. unfold np.flatten_F.
  unfold entry in He. destruct (a !! i) as [r|] eqn:Hr; [|discriminate].
  rewrite (lookup_flat_map_const _ (length a)).
  - unfold np.column. rewrite list_lookup_fmap, Hr. cbn.
    f_equal. rewrite (nth_lookup_Some _ _ _ _ He). reflexivity.
  - intros x. apply length_map.
  - eapply lookup_lt_Some, Hr.
  - exact Hj.
Qed.

(** ** The redraw callback *)

Lemma n_points_structured (pts : list point) (pa : gmap string nat) :
  n_points (mkMesh (Structured pts) pa) = length pts.
Proof. reflexivity. Qed.

Lemma update_3d_warp_run (v : Z) (w : World) (mr mw : Mesh) :
  ready w -> mesh_ref w = Some mr -> mesh_warped w = Some mw ->
  update_3d_warp v w = Ok (tt, redrawn v mr mw w).
Proof.
  intros [Hg [mr' [Hr Hnr]] [pts [pa [Hw Hnw]]] Hpl [sc Hpane] _] Hmr Hmw.
  rewrite Hmr in Hr. injection Hr as <-.
  rewrite Hmw in Hw. injection Hw as ->.
  unfold update_3d_warp, redrawn, redraw_calls.
  fold (frame_time v).
  generalize (frame_time v). intros t.
  unfold bind at 1. rewrite (time_function_run t w Hg).
  world_fields w. destruct mr as [g par]. subst.
  unfold flatten, pv.append, pv.warp_by_scalar, pv.set_points, pn.synchronize.
  repeat (kernel_step;
          first [ rewrite list_lookup_middle by reflexivity
                | rewrite n_points_structured, Hnw
                | rewrite length_flatten_field
                | rewrite Hnr
                | rewrite Nat.eqb_refl
                | rewrite lookup_insert_eq ]).
  rewrite <- !app_assoc. reflexivity.
Qed.

Lemma redrawn_ready (v : Z) (w : World) (mr mw : Mesh) :
  ready w -> mesh_ref w = Some mr -> mesh_warped w = Some mw ->
  ready (redrawn v mr mw w).
Proof.
  intros [[Ha Hxv Hyv Hxs Hys] [mr' [Hr Hnr]] _ Hpl _ [p Hp]] Hmr Hmw.
  rewrite Hmr in Hr. injection Hr as <-.
  constructor; cbn.
  - now constructor.
  - eexists. split; [reflexivity|]. exact Hnr.
  - do 2 eexists. split; [reflexivity|].
    rewrite length_zip_with, length_flatten_field.
    fold (n_points mr). rewrite Hnr. apply Nat.min_id.
  - exact Hpl.
  - eexists. reflexivity.
  - eexists. exact Hp.
Qed.

(** ** The state the notebook leaves behind *)

Lemma lookup_grid_xvals (i : nat) :
  (i < 100)%nat -> grid_xvals !! i = Some (coordinate i).
Proof. intros Hi. apply lookup_linspace. lia. Qed.

Lemma lookup_grid_yvals (i : nat) :
  (i < 100)%nat -> grid_yvals !! i = Some (coordinate i).
Proof. intros Hi. apply lookup_linspace. lia. Qed.

Lemma np_min_nonempty (l : list R) :
  (0 < length l)%nat -> np.min l = Ok (list_min l).
Proof. destruct l; cbn; [lia | reflexivity]. Qed.

Lemma n_points_uniform (d : nat * nat * nat) (sp og : R * R * R)
      (pa : gmap string nat) :
  n_points (mkMesh (Uniform d sp og) pa) = n_uniform d.
Proof. unfold n_points, points. cbn [geom]. now rewrite length_map, length_seq. Qed.

Lemma getitem_grid_xvals (i : nat) :
  (i < 100)%nat -> np.getitem grid_xvals i = Ok (coordinate i).
Proof. intros Hi. unfold np.getitem. now rewrite lookup_grid_xvals. Qed.

Lemma n_uniform_grid : n_uniform (101, 101, 1)%nat = n_grid.
Proof. reflexivity. Qed.

Lemma created_ready : ready created.
Proof.
  constructor; cbn.
  - now constructor.
  - eexists. split; [reflexivity|].
    unfold cell2_mesh_ref. now rewrite n_points_uniform.
  - do 2 eexists. split; [reflexivity|].
    rewrite length_zip_with. fold (n_points cell2_mesh_ref).
    unfold cell2_mesh_ref, field_data.
    now rewrite n_points_uniform, length_flatten_field.
  - reflexivity.
  - eexists. reflexivity.
  - eexists. reflexivity.
Qed.

Lemma notebook_run : notebook empty_world = Ok (tt, initial).
Proof.
  unfold notebook, cell2, cell3, empty_world.
  unfold flatten, pv.UniformGrid, pv.append, pv.warp_by_scalar, pv.Plotter,
    pv.add_mesh, pn.panel, pn.display, pn.Player, pn.Column.
  kernel_step.
  fold grid_xvals grid_yvals.
  rewrite !getitem_grid_xvals by lia.
  rewrite np_min_nonempty by (rewrite length_grid_xvals; lia).
  rewrite length_grid_xvals.
  kernel_step.
  rewrite time_function_run by (constructor; reflexivity).
  repeat (kernel_step;
          first [ rewrite list_lookup_middle by reflexivity
                | rewrite n_points_uniform, n_uniform_grid
                | rewrite length_flatten_field
                | rewrite Nat.eqb_refl
                | rewrite lookup_insert_eq ]).
  match goal with
  | |- context [update_3d_warp ?v ?W] =>
      change (update_3d_warp v W) with (update_3d_warp 0 created)
  end.
  rewrite (update_3d_warp_run 0 created cell2_mesh_ref created_mesh_warped
             created_ready eq_refl eq_refl).
  reflexivity.
Qed.

Lemma cell2_run : cell2 empty_world = Ok (tt, after_cell2).
Proof.
  unfold cell2, empty_world.
  unfold flatten, pv.UniformGrid, pv.append, pv.Plotter, pv.add_mesh,
    pn.panel, pn.display.
  kernel_step.
  fold grid_xvals grid_yvals.
  rewrite !getitem_grid_xvals by lia.
  rewrite np_min_nonempty by (rewrite length_grid_xvals; lia).
  rewrite length_grid_xvals.
  kernel_step.
  rewrite time_function_run by (constructor; reflexivity).
  repeat (kernel_step;
          first [ rewrite list_lookup_middle by reflexivity
                | rewrite n_points_uniform, n_uniform_grid
                | rewrite length_flatten_field
                | rewrite Nat.eqb_refl
                | rewrite lookup_insert_eq ]).
  reflexivity.
Qed.

Lemma initial_ready : ready initial.
Proof.
  constructor; unfold initial;
    cbn [alpha xvals yvals xs ys mesh_ref mesh_warped pl vtkpan frame].
  - now constructor.
  - eexists. split; [reflexivity|].
    unfold initial_mesh_ref, cell2_mesh_ref. cbn [geom].
    now rewrite n_points_uniform.
  - do 2 eexists. split; [reflexivity|].
    rewrite length_zip_with. fold (n_points cell2_mesh_ref).
    unfold cell2_mesh_ref.
    now rewrite n_points_uniform, length_flatten_field.
  - reflexivity.
  - eexists. reflexivity.
  - eexists. reflexivity.
Qed.

(** ** Runs of the animation *)

Lemma update_3d_warp_ready (v : Z) (w : World) :
  ready w -> exists w', update_3d_warp v w = Ok (tt, w') /\ ready w'.
Proof.
  intros Hw.
  destruct (ready_ref w Hw) as [mr [Hmr _]].
  destruct (ready_warped w Hw) as [pts [pa [Hmw _]]].
  exists (redrawn v mr (mkMesh (Structured pts) pa) w). split.
  - now apply update_3d_warp_run.
  - now apply redrawn_ready.
Qed.

Lemma play_ready (vs : list Z) (w : World) :
  ready w -> exists w', play vs w = Ok (tt, w') /\ ready w'.
Proof.
  revert w. induction vs as [|v vs IH]; intros w Hw.
  - exists w. split; [reflexivity | exact Hw].
  - destruct (update_3d_warp_ready v w Hw) as [w1 [H1 Hw1]].
    destruct (IH w1 Hw1) as [w2 [H2 Hw2]].
    exists w2. split; [|exact Hw2].
    cbn [play]. unfold bind. now rewrite H1.
Qed.

Lemma session_ready (vs : list Z) :
  exists w, session vs empty_world = Ok (tt, w) /\ ready w.
Proof.
  destruct (play_ready vs initial initial_ready) as [w [H Hw]].
  exists w. split; [|exact Hw].
  unfold session, bind. now rewrite notebook_run.
Qed.

(** ** The coordinate arrays are never written *)

Section Frame.

Context {A B : Type}.

Lemma keeps_ret (a : A) : keeps_coords (ret a).
Proof. intros w a' w' H. injection H as _ <-. reflexivity. Qed.

Lemma keeps_raise (e : exn) : keeps_coords (@raise A e).
Proof. intros w a w' H. discriminate. Qed.

Lemma keeps_lift (r : result A) : keeps_coords (lift r).
Proof.
  intros w a w' H. unfold lift in H. destruct r; [|discriminate].
  injection H as _ <-. reflexivity.
Qed.

Lemma keeps_name (proj : World -> option A) (n : string) :
  keeps_coords (name proj n).
Proof.
  intros w a w' H. unfold name in H. destruct (proj w); [|discriminate].
  injection H as _ <-. reflexivity.
Qed.

Lemma keeps_assign (setter : A -> World -> World) (v : A) :
  (forall w, coords (setter v w) = coords w) ->
  keeps_coords (assign setter v).
Proof. intros Hs w a w' H. injection H as _ <-. apply Hs. Qed.

Lemma keeps_bind (c : M A) (k : A -> M B) :
  keeps_coords c -> (forall a, keeps_coords (k a)) -> keeps_coords (bind c k).
Proof.
  intros Hc Hk w b w' H. unfold bind in H.
  destruct (c w) as [[a w1]|e] eqn:Hcw; [|discriminate].
  rewrite (Hk a w1 b w' H). exact (Hc w a w1 Hcw).
Qed.

End Frame.

Lemma keeps_record (c : Call) : keeps_coords (record c).
Proof. intros w a w' H. injection H as _ <-. reflexivity. Qed.

Lemma keeps_alloc (d : list R) : keeps_coords (alloc d).
Proof. intros w a w' H. injection H as _ <-. reflexivity. Qed.

Lemma keeps_deref (l : nat) : keeps_coords (deref l).
Proof.
  intros w a w' H. unfold deref in H. destruct (heap w !! l); [|discriminate].
  injection H as _ <-. reflexivity.
Qed.

Lemma keeps_get_mesh (i : mesh_id) : keeps_coords (get_mesh i).
Proof. destruct i; apply keeps_name. Qed.

Lemma keeps_put_mesh (i : mesh_id) (m : Mesh) : keeps_coords (put_mesh i m).
Proof. destruct i; apply keeps_assign; reflexivity. Qed.

Lemma keeps_get_plotter (i : plotter_id) : keeps_coords (get_plotter i).
Proof. destruct i; apply keeps_name. Qed.

Lemma keeps_put_plotter (i : plotter_id) (p : Plotter) :
  keeps_coords (put_plotter i p).
Proof. destruct i; apply keeps_assign; reflexivity. Qed.

Create HintDb frame.

#[local] Hint Resolve keeps_ret keeps_raise keeps_lift keeps_name keeps_record
  keeps_alloc keeps_deref keeps_get_mesh keeps_put_mesh keeps_get_plotter
  keeps_put_plotter : frame.

Ltac frame :=
  cbv zeta;
  repeat first
    [ solve [auto with frame]
    | apply keeps_assign; reflexivity
    | apply keeps_bind; [| intros ?]
    | match goal with
      | |- keeps_coords (match ?x with _ => _ end) => destruct x
      | |- keeps_coords (if ?x then _ else _) => destruct x
      end ].

Lemma keeps_time_function (t : R) : keeps_coords (time_function t).
Proof. unfold time_function. frame. Qed.

Lemma keeps_flatten (a : list (list R)) : keeps_coords (flatten a).
Proof. unfold flatten. frame. Qed.

Lemma keeps_append (i : mesh_id) (data : nat) (nm : string) :
  keeps_coords (pv.append i data nm).
Proof. unfold pv.append. frame. Qed.

Lemma keeps_warp_by_scalar (i : mesh_id) (factor : R) :
  keeps_coords (pv.warp_by_scalar i factor).
Proof. unfold pv.warp_by_scalar. frame. Qed.

Lemma keeps_set_points (i : mesh_id) (pts : list point) :
  keeps_coords (pv.set_points i pts).
Proof. unfold pv.set_points. frame. Qed.

Lemma keeps_snapshot (ms : list mesh_id) : keeps_coords (pn.snapshot ms).
Proof. induction ms as [|i ms IH]; cbn [pn.snapshot]; frame. Qed.

Lemma keeps_synchronize : keeps_coords pn.synchronize.
Proof. unfold pn.synchronize. pose proof keeps_snapshot. frame. Qed.

#[local] Hint Resolve keeps_time_function keeps_flatten keeps_append
  keeps_warp_by_scalar keeps_set_points keeps_snapshot keeps_synchronize
  : frame.

Lemma keeps_update_3d_warp (v : Z) : keeps_coords (update_3d_warp v).
Proof. unfold update_3d_warp. frame. Qed.

Lemma keeps_set_value (v : Z) : keeps_coords (set_value v).
Proof. unfold set_value. pose proof keeps_update_3d_warp. frame. Qed.

Lemma keeps_play (vs : list Z) : keeps_coords (play vs).
Proof.
  induction vs as [|v vs IH]; cbn [play].
  - apply keeps_ret.
  - apply keeps_bind; [apply keeps_update_3d_warp | intros _; exact IH].
Qed.

(** * Main results *)

(** ** The field function *)

Lemma lookup_grid_xvals_is_Some (j : nat) :
  (j < 101)%nat -> exists x, grid_xvals !! j = Some x.
Proof.
  intros Hj. apply lookup_lt_is_Some. now rewrite length_grid_xvals.
Qed.

Lemma lookup_grid_yvals_is_Some (i : nat) :
  (i < 101)%nat -> exists y, grid_yvals !! i = Some y.
Proof.
  intros Hi. apply lookup_lt_is_Some. now rewrite length_grid_yvals.
Qed.

(** C1. The field is a closed-form trigonometric function of the grid
    coordinates and the time, evaluated pointwise over the whole grid: in
    every kernel state in which the grid of the second cell is bound,
    [time_function t] returns a 101 x 101 array whose entry [i, j] is
    [sin (((y / 2) ^ 2 + t) * x)], where [x = xs[i, j] = xvals[j]] and
    [y = ys[i, j] = yvals[i]] are the coordinates of the grid point and
    [alpha = 2]. *)
Theorem time_function_closed_form (t : R) (w : World) (i j : nat) :
  grid_bound w -> (i < 101)%nat -> (j < 101)%nat ->
  exists a w' gx gy x y,
    time_function t w = Ok (a, w') /\
    np.shape a = repeat 101%nat 101 /\
    alpha w = Some 2%Z /\ xs w = Some gx /\ ys w = Some gy /\
    entry gx i j = Some x /\ grid_xvals !! j = Some x /\
    entry gy i j = Some y /\ grid_yvals !! i = Some y /\
    entry a i j = Some (sin (((y / 2) ^ 2 + t) * x)).
Proof.
  intros Hg Hi Hj.
  destruct (lookup_grid_xvals_is_Some j Hj) as [x Hx].
  destruct (lookup_grid_yvals_is_Some i Hi) as [y Hy].
  exists (field t), (set_log (log w ++ [call_time_function t]) w),
    grid_xs, grid_ys, x, y.
  pose proof (entry_grid_xs i j x y Hy Hx) as Hex.
  pose proof (entry_grid_ys i j x y Hy Hx) as Hey.
  split; [now apply time_function_run|].
  split; [apply shape_field|].
  repeat (split; [first [assumption | apply Hg]|]).
  rewrite entry_field, Hex, Hey. reflexivity.
Qed.

Lemma time_function_closed_form_witness :
  exists a w' gx gy x y,
    time_function 1 initial = Ok (a, w') /\
    np.shape a = repeat 101%nat 101 /\
    alpha initial = Some 2%Z /\ xs initial = Some gx /\ ys initial = Some gy /\
    entry gx 3 5 = Some x /\ grid_xvals !! 5%nat = Some x /\
    entry gy 3 5 = Some y /\ grid_yvals !! 3%nat = Some y /\
    entry a 3 5 = Some (sin (((y / 2) ^ 2 + 1) * x)).
Proof.
  apply (time_function_closed_form 1 initial 3 5).
  - apply initial_ready.
  - lia.
  - lia.
Defined.

(** C6. Evaluating the field is total: in every state that the notebook and
    any number of runs of the callback lead to, [time_function] returns
    normally for every real time value. The divisor [alpha] is [2], the
    exponent is not negative, and the two factors of the product have the
    same shape. *)
Theorem time_function_total (t : R) (vs : list Z) :
  exists w a w',
    session vs empty_world = Ok (tt, w) /\
    alpha w = Some 2%Z /\
    time_function t w = Ok (a, w').
Proof.
  destruct (session_ready vs) as [w [Hs Hw]].
  exists w, (field t), (set_log (log w ++ [call_time_function t]) w).
  split; [exact Hs|]. split; [apply Hw|].
  apply time_function_run, Hw.
Qed.

(** The model does raise where the division is undefined. *)
Lemma time_function_zero_alpha (t : R) (w : World) :
  alpha w = Some 0%Z -> ys w = Some grid_ys ->
  time_function t w = Raise ZeroDivisionError.
Proof.
  intros Ha Hys. world_fields w. subst.
  unfold time_function. kernel_step. reflexivity.
Qed.

Lemma Forall_sin (a : list (list R)) :
  Forall (Forall in_unit_interval) (np.sin a).
Proof.
  unfold np.sin.
  induction a as [|r a IH]; cbn [map]; constructor; [|exact IH].
  clear IH. induction r as [|s r IH]; cbn [map]; constructor; [|exact IH].
  apply SIN_bound.
Qed.

Lemma Forall_flatten_F (P : R -> Prop) (a : list (list R)) :
  P 0 -> Forall (Forall P) a -> Forall P (np.flatten_F a).
Proof.
  intros H0 Ha. unfold np.flatten_F.
  apply List.Forall_forall. intros s Hs.
  apply in_flat_map in Hs as [j [_ Hs]].
  unfold np.column in Hs. apply in_map_iff in Hs as [r [<- Hr]].
  rewrite List.Forall_forall in Ha. specialize (Ha r Hr).
  destruct (nth_in_or_default j r 0) as [Hin | ->]; [|exact H0].
  rewrite List.Forall_forall in Ha. now apply Ha.
Qed.

Lemma field_data_bounded (t : R) : Forall in_unit_interval (field_data t).
Proof.
  apply Forall_flatten_F.
  - unfold in_unit_interval. lra.
  - apply Forall_sin.
Qed.

Lemma update_3d_warp_redrawn (v : Z) (w : World) :
  ready w ->
  exists mr mw,
    mesh_ref w = Some mr /\ mesh_warped w = Some mw /\
    update_3d_warp v w = Ok (tt, redrawn v mr mw w).
Proof.
  intros Hw.
  destruct (ready_ref w Hw) as [mr [Hmr _]].
  destruct (ready_warped w Hw) as [pts [pa [Hmw _]]].
  exists mr, (mkMesh (Structured pts) pa).
  split; [exact Hmr|]. split; [exact Hmw|].
  now apply update_3d_warp_run.
Qed.

(** C10. Every value of the field lies in [[-1, 1]], for every time and
    every grid point, and so does every entry of the data array that a run
    of the callback leaves as the scalars of the reference mesh, from which
    the warp routine reads. *)
Theorem field_in_unit_interval (t : R) (v : Z) (w : World) :
  ready w ->
  (exists a w',
      time_function t w = Ok (a, w') /\
      Forall (Forall in_unit_interval) a /\
      forall i j s, entry a i j = Some s -> -1 <= s <= 1) /\
  (exists w' mr l d,
      update_3d_warp v w = Ok (tt, w') /\
      mesh_ref w' = Some mr /\
      point_arrays mr !! "scalars" = Some l /\
      heap w' !! l = Some d /\
      Forall in_unit_interval d).
Proof.
  intros Hw. split.
  - exists (field t), (set_log (log w ++ [call_time_function t]) w).
    split; [apply time_function_run, Hw|].
    split; [apply Forall_sin|].
    intros i j s Hs. rewrite entry_field in Hs.
    destruct (entry grid_ys i j); [|discriminate].
    destruct (entry grid_xs i j); [|discriminate].
    injection Hs as <-. apply SIN_bound.
  - destruct (update_3d_warp_redrawn v w Hw) as [mr [mw [Hmr [Hmw Hrun]]]].
    eexists _, _, (length (heap w)), (field_data (frame_time v)).
    split; [exact Hrun|].
    split; [reflexivity|].
    split; [apply lookup_insert_eq|].
    split; [now apply list_lookup_middle|].
    apply field_data_bounded.
Qed.

Lemma field_in_unit_interval_witness :
  (exists a w',
      time_function 1 initial = Ok (a, w') /\
      Forall (Forall in_unit_interval) a /\
      forall i j s, entry a i j = Some s -> -1 <= s <= 1) /\
  (exists w' mr l d,
      update_3d_warp 7 initial = Ok (tt, w') /\
      mesh_ref w' = Some mr /\
      point_arrays mr !! "scalars" = Some l /\
      heap w' !! l = Some d /\
      Forall in_unit_interval d).
Proof.
  apply (field_in_unit_interval 1 7 initial).
  apply initial_ready.
Defined.

(** ** The redraw callback *)

(** C9. After every run of the callback the reference mesh and the warped
    mesh hold the same ['scalars'] array: both names refer to the one
    buffer that this run computed. *)
Theorem callback_shares_scalars (v : Z) (w : World) :
  ready w ->
  exists w' mr mw l d,
    update_3d_warp v w = Ok (tt, w') /\
    mesh_ref w' = Some mr /\ mesh_warped w' = Some mw /\
    point_arrays mr !! "scalars" = Some l /\
    point_arrays mw !! "scalars" = Some l /\
    heap w' !! l = Some d /\
    heap w !! l = None /\
    d = field_data (frame_time v).
Proof.
  intros Hw.
  destruct (update_3d_warp_redrawn v w Hw) as [mr [mw [Hmr [Hmw Hrun]]]].
  eexists _, _, _, (length (heap w)), (field_data (frame_time v)).
  split; [exact Hrun|].
  split; [reflexivity|]. split; [reflexivity|].
  split; [apply lookup_insert_eq|]. split; [apply lookup_insert_eq|].
  split; [now apply list_lookup_middle|].
  split; [now apply lookup_ge_None|reflexivity].
Qed.

Lemma callback_shares_scalars_witness :
  exists w' mr mw l d,
    update_3d_warp 7 initial = Ok (tt, w') /\
    mesh_ref w' = Some mr /\ mesh_warped w' = Some mw /\
    point_arrays mr !! "scalars" = Some l /\
    point_arrays mw !! "scalars" = Some l /\
    heap w' !! l = Some d /\
    heap initial !! l = None /\
    d = field_data (frame_time 7).
Proof.
  apply (callback_shares_scalars 7 initial).
  apply initial_ready.
Defined.

Lemma frame_time_step (u : Z) : frame_time (u + 1) - frame_time u = 0.2.
Proof. unfold frame_time. rewrite plus_IZR. lra. Qed.

Lemma frame_time_range (u : Z) :
  (0 <= u <= 50)%Z -> 0 <= frame_time u <= 10.
Proof.
  intros [H0 H50]. unfold frame_time.
  apply IZR_le in H0. apply IZR_le in H50. lra.
Qed.

(** C8. For every player value [v] the callback evaluates the field at the
    time [v / 5]: the one call of [time_function] it makes is at that time,
    and the array it stores is the flattened result of that call. The
    player starts at 0 and ranges over 0 .. 50, so the animation covers the
    times 0 .. 10 in steps of 0.2. *)
Theorem callback_time (v : Z) (w : World) :
  ready w ->
  (exists a w1 w' mr l,
      time_function (IZR v / 5) w = Ok (a, w1) /\
      update_3d_warp v w = Ok (tt, w') /\
      log w' = log w ++ redraw_calls v (length (heap w)) /\
      mesh_ref w' = Some mr /\
      point_arrays mr !! "scalars" = Some l /\
      heap w' !! l = Some (np.flatten_F a)) /\
  frame_time v = IZR v / 5 /\
  frame initial = Some (mkPlayer 0 0 50 100 "reflect") /\
  frame_time 0 = 0 /\ frame_time 50 = 10 /\
  (forall u : Z, frame_time (u + 1) - frame_time u = 0.2) /\
  (forall u : Z, (0 <= u <= 50)%Z -> 0 <= frame_time u <= 10).
Proof.
  intros Hw. split.
  - destruct (update_3d_warp_redrawn v w Hw) as [mr [mw [Hmr [Hmw Hrun]]]].
    eexists (field (IZR v / 5)), _, _, _, (length (heap w)).
    split; [apply time_function_run, Hw|].
    split; [exact Hrun|].
    split; [reflexivity|]. split; [reflexivity|].
    split; [apply lookup_insert_eq|].
    now apply list_lookup_middle.
  - split; [reflexivity|]. split; [reflexivity|].
    split; [unfold frame_time; lra|]. split; [unfold frame_time; lra|].
    split; [apply frame_time_step | apply frame_time_range].
Qed.

Lemma callback_time_witness :
  (exists a w1 w' mr l,
      time_function (IZR 7 / 5) initial = Ok (a, w1) /\
      update_3d_warp 7 initial = Ok (tt, w') /\
      log w' = log initial ++ redraw_calls 7 (length (heap initial)) /\
      mesh_ref w' = Some mr /\
      point_arrays mr !! "scalars" = Some l /\
      heap w' !! l = Some (np.flatten_F a)) /\
  frame_time 7 = IZR 7 / 5 /\
  frame initial = Some (mkPlayer 0 0 50 100 "reflect") /\
  frame_time 0 = 0 /\ frame_time 50 = 10 /\
  (forall u : Z, frame_time (u + 1) - frame_time u = 0.2) /\
  (forall u : Z, (0 <= u <= 50)%Z -> 0 <= frame_time u <= 10).
Proof.
  apply (callback_time 7 initial).
  apply initial_ready.
Defined.

(** C4. The coordinate grid is fixed. The second cell binds [xvals],
    [yvals], [xs] and [ys]; after the notebook and any number of runs of
    the callback they are bound to the very arrays the second cell
    computed, [xs] and [ys] are 101 x 101, and every evaluation of the
    field is made on them. No run of the callback, of the field function or
    of a value change of the player, in any state whatsoever, returns with
    one of these bindings changed. *)
Theorem grid_is_fixed (vs : list Z) :
  (exists w,
      session vs empty_world = Ok (tt, w) /\
      xvals w = Some (np.linspace (-4) 4 101) /\
      yvals w = Some (np.linspace (-4) 4 101) /\
      xs w = Some (fst (np.meshgrid (np.linspace (-4) 4 101)
                                    (np.linspace (-4) 4 101))) /\
      ys w = Some (snd (np.meshgrid (np.linspace (-4) 4 101)
                                    (np.linspace (-4) 4 101))) /\
      xvals w = xvals initial /\ yvals w = yvals initial /\
      xs w = xs initial /\ ys w = ys initial /\
      (forall gx gy, xs w = Some gx -> ys w = Some gy ->
         np.shape gx = repeat 101%nat 101 /\ np.shape gy = repeat 101%nat 101) /\
      (forall t, exists w', time_function t w = Ok (field t, w'))) /\
  (forall v w w', update_3d_warp v w = Ok (tt, w') -> coords w' = coords w) /\
  (forall t w a w', time_function t w = Ok (a, w') -> coords w' = coords w) /\
  (forall v w w', set_value v w = Ok (tt, w') -> coords w' = coords w).
Proof.
  split; [|split; [|split]].
  - destruct (session_ready vs) as [w [Hs Hw]].
    destruct (ready_grid w Hw) as [Ha Hxv Hyv Hxs Hys].
    exists w. split; [exact Hs|].
    repeat (split; [assumption|]).
    split.
    + intros gx gy Hgx Hgy.
      rewrite Hxs in Hgx. injection Hgx as <-.
      rewrite Hys in Hgy. injection Hgy as <-.
      split; [apply shape_grid_xs | apply shape_grid_ys].
    + intros t. eexists. apply time_function_run, Hw.
  - intros v w w'. apply keeps_update_3d_warp.
  - intros t w a w'. apply keeps_time_function.
  - intros v w w'. apply keeps_set_value.
Qed.

Lemma set_frame_ready (p : Player) (w : World) : ready w -> ready (set_frame p w).
Proof.
  intros [[Ha Hxv Hyv Hxs Hys] Hr Hm Hpl Hpane _].
  constructor; try assumption.
  - now constructor.
  - eexists. reflexivity.
Qed.

Lemma warp_by_scalar_redrawn (v : Z) (w : World) (mr mw : Mesh) :
  exists w2,
    pv.warp_by_scalar id_mesh_ref 0.5 (redrawn v mr mw w) =
    Ok (mkMesh (Structured (zip_with (warp_point 0.5) (points mr)
                                     (field_data (frame_time v))))
               (<["scalars" := length (heap w)]> (point_arrays mr)), w2).
Proof.
  unfold pv.warp_by_scalar, redrawn. kernel_step.
  rewrite lookup_insert_eq. kernel_step.
  rewrite list_lookup_middle by reflexivity.
  eexists. reflexivity.
Qed.

(** C2. Every change of the player's value runs the callback, which
    recomputes the field at the corresponding time, writes the flattened
    data into the point arrays of the reference mesh and of the warped mesh,
    replaces the points of the warped mesh by the points of a fresh warp of
    the reference mesh, and synchronises the pane, in that order: the log
    grows by exactly these calls, the warp reads the scalars written just
    before, and the pane serialises the warped mesh as the callback left
    it. *)
Theorem value_change_redraws (v : Z) (w : World) (p : Player) (mr mw : Mesh) :
  ready w -> frame w = Some p -> v <> value p ->
  mesh_ref w = Some mr -> mesh_warped w = Some mw ->
  exists w' a w1 d pts m w2,
    set_value v w = Ok (tt, w') /\
    time_function (IZR v / 5) w = Ok (a, w1) /\
    d = np.flatten_F a /\
    heap w' = heap w ++ [d] /\
    mesh_ref w' = Some (mkMesh (geom mr)
                          (<["scalars" := length (heap w)]> (point_arrays mr))) /\
    mesh_warped w' = Some (mkMesh (Structured pts)
                          (<["scalars" := length (heap w)]> (point_arrays mw))) /\
    pts = zip_with (warp_point 0.5) (points mr) d /\
    pv.warp_by_scalar id_mesh_ref 0.5 w' = Ok (m, w2) /\ points m = pts /\
    vtkpan w' = Some (mkPane id_pl (Some [(pts, d)])) /\
    log w' =
      log w ++ [ call_time_function (IZR v / 5);
                 call_flatten (length (heap w));
                 call_append id_mesh_ref (length (heap w)) "scalars";
                 call_append id_mesh_warped (length (heap w)) "scalars";
                 call_warp_by_scalar id_mesh_ref 0.5;
                 call_set_points id_mesh_warped;
                 call_synchronize ] /\
    frame w' = Some (mkPlayer v (start p) (end_ p) (interval p) (loop_policy p)).
Proof.
  intros Hw Hp Hv Hmr Hmw.
  set (p' := mkPlayer v (start p) (end_ p) (interval p) (loop_policy p)).
  assert (Hrun : set_value v w = Ok (tt, redrawn v mr mw (set_frame p' w))).
  { unfold set_value, bind, name. rewrite Hp.
    destruct (Z.eqb_spec v (value p)) as [He|_]; [contradiction|].
    unfold assign. fold p'.
    apply update_3d_warp_run; [now apply set_frame_ready | exact Hmr | exact Hmw]. }
  destruct (warp_by_scalar_redrawn v (set_frame p' w) mr mw) as [w2 Hwarp].
  eexists _, (field (IZR v / 5)), _, _, _, _, w2.
  split; [exact Hrun|].
  split; [apply time_function_run, Hw|].
  split; [reflexivity|]. split; [reflexivity|]. split; [reflexivity|].
  split; [reflexivity|]. split; [reflexivity|].
  split; [exact Hwarp|].
  repeat (split; [reflexivity|]). reflexivity.
Qed.

Lemma value_change_redraws_witness :
  exists w' a w1 d pts m w2,
    set_value 7 initial = Ok (tt, w') /\
    time_function (IZR 7 / 5) initial = Ok (a, w1) /\
    d = np.flatten_F a /\
    heap w' = heap initial ++ [d] /\
    mesh_ref w' = Some (mkMesh (geom initial_mesh_ref)
                          (<["scalars" := length (heap initial)]>
                             (point_arrays initial_mesh_ref))) /\
    mesh_warped w' = Some (mkMesh (Structured pts)
                          (<["scalars" := length (heap initial)]>
                             (point_arrays initial_mesh_warped))) /\
    pts = zip_with (warp_point 0.5) (points initial_mesh_ref) d /\
    pv.warp_by_scalar id_mesh_ref 0.5 w' = Ok (m, w2) /\ points m = pts /\
    vtkpan w' = Some (mkPane id_pl (Some [(pts, d)])) /\
    log w' =
      log initial ++ [ call_time_function (IZR 7 / 5);
                       call_flatten (length (heap initial));
                       call_append id_mesh_ref (length (heap initial)) "scalars";
                       call_append id_mesh_warped (length (heap initial)) "scalars";
                       call_warp_by_scalar id_mesh_ref 0.5;
                       call_set_points id_mesh_warped;
                       call_synchronize ] /\
    frame w' = Some (mkPlayer 7 0 50 100 "reflect").
Proof.
  apply (value_change_redraws 7 initial (mkPlayer 0 0 50 100 "reflect")
           initial_mesh_ref initial_mesh_warped).
  - apply initial_ready.
  - reflexivity.
  - cbn. lia.
  - reflexivity.
  - reflexivity.
Defined.

Lemma bind_Ok_inv {A B : Type} (c : M A) (k : A -> M B) (w : World)
      (b : B) (w' : World) :
  bind c k w = Ok (b, w') <->
  exists a w1, c w = Ok (a, w1) /\ k a w1 = Ok (b, w').
Proof.
  unfold bind. split.
  - destruct (c w) as [[a w1]|e]; [|discriminate].
    intros H. now exists a, w1.
  - intros [a [w1 [-> H]]]. exact H.
Qed.

Lemma bind_Raise (A B : Type) (c : M A) (k : A -> M B) (w : World) (e : exn) :
  c w = Raise e -> bind c k w = Raise e.
Proof. unfold bind. now intros ->. Qed.

Lemma shape_add (a : list (list R)) (t : R) : np.shape (np.add a t) = np.shape a.
Proof. unfold np.add. apply shape_map_map. Qed.

(** Whether the field function returns, and with which exception it does
    not, is the same for all times: the time takes no part in any test. *)
Lemma time_function_uniform (t1 t2 : R) (w : World) :
  match time_function t1 w, time_function t2 w with
  | Ok _, Ok _ => True
  | Raise e1, Raise e2 => e1 = e2
  | _, _ => False
  end.
Proof.
  world_fields w. unfold time_function. kernel_step.
  destruct w_ys as [Y|]; [|reflexivity].
  destruct w_alpha as [al|]; [|reflexivity].
  unfold np.true_divide. destruct (al =? 0)%Z; [reflexivity|].
  unfold np.power. destruct ((al <? 0)%Z && np.has_zero _); [reflexivity|].
  destruct w_xs as [X|]; [|reflexivity].
  unfold np.multiply. rewrite !shape_add.
  destruct (decide _); [exact I | reflexivity].
Qed.

Lemma player_values_representable (u : Z) :
  (0 <= u <= 50)%Z -> time_representable u.
Proof.
  intros Hu. unfold time_representable.
  assert (Hb : (50 < 5 * (2 ^ 1024 - 2 ^ 970))%Z) by (vm_compute; reflexivity).
  revert Hb. generalize (5 * (2 ^ 1024 - 2 ^ 970))%Z. intros b Hb. lia.
Qed.

(** C5. Neither the field function nor the callback validates its input
    or handles an error. For the field function: in any state, whether it
    returns and which exception it raises otherwise is the same for every
    time. For the callback, for every player value whose fifth is a
    float64 (all values of the player are): in any state it returns
    normally exactly when each of its seven steps, run once and in
    sequence, returns normally; an exception of the field function leaves
    the callback as it is; and in a ready state every such value is
    processed by the same calls, only the time differing. *)
Theorem callback_single_path (v : Z) (w : World) :
  time_representable v ->
  (forall t1 t2,
      ((exists a w', time_function t1 w = Ok (a, w')) <->
       (exists a w', time_function t2 w = Ok (a, w'))) /\
      (forall e, time_function t1 w = Raise e <-> time_function t2 w = Raise e)) /\
  (forall w',
      update_3d_warp v w = Ok (tt, w') <->
      exists a w1 l w2 w3 w4 m w5 w6,
        time_function (IZR v / 5) w = Ok (a, w1) /\
        flatten a w1 = Ok (l, w2) /\
        pv.append id_mesh_ref l "scalars" w2 = Ok (tt, w3) /\
        pv.append id_mesh_warped l "scalars" w3 = Ok (tt, w4) /\
        pv.warp_by_scalar id_mesh_ref 0.5 w4 = Ok (m, w5) /\
        pv.set_points id_mesh_warped (points m) w5 = Ok (tt, w6) /\
        pn.synchronize w6 = Ok (tt, w')) /\
  (forall e, time_function (IZR v / 5) w = Raise e ->
             update_3d_warp v w = Raise e) /\
  (ready w ->
   exists w', update_3d_warp v w = Ok (tt, w') /\
              log w' = log w ++ redraw_calls v (length (heap w))) /\
  (forall u : Z, (0 <= u <= 50)%Z -> time_representable u).
Proof.
  intros _. split; [|split; [|split; [|split]]].
  - intros t1 t2.
    pose proof (time_function_uniform t1 t2 w) as H.
    destruct (time_function t1 w) as [[a1 w1]|e1],
             (time_function t2 w) as [[a2 w2]|e2];
      try contradiction.
    + split; [split; intros _; eauto|].
      intros e. split; discriminate.
    + subst e2. split; [split; intros [a [w' Hf]]; discriminate Hf|].
      intros e. split; exact (fun H => H).
  - intros w'. unfold update_3d_warp. cbv zeta. split.
    + intros H.
      apply bind_Ok_inv in H as [a [w1 [H1 H]]].
      apply bind_Ok_inv in H as [l [w2 [H2 H]]].
      apply bind_Ok_inv in H as [[] [w3 [H3 H]]].
      apply bind_Ok_inv in H as [[] [w4 [H4 H]]].
      apply bind_Ok_inv in H as [m [w5 [H5 H]]].
      apply bind_Ok_inv in H as [[] [w6 [H6 H]]].
      now exists a, w1, l, w2, w3, w4, m, w5, w6.
    + intros [a [w1 [l [w2 [w3 [w4 [m [w5 [w6 H]]]]]]]]].
      destruct H as [H1 [H2 [H3 [H4 [H5 [H6 H7]]]]]].
      apply bind_Ok_inv. exists a, w1. split; [exact H1|].
      apply bind_Ok_inv. exists l, w2. split; [exact H2|].
      apply bind_Ok_inv. exists tt, w3. split; [exact H3|].
      apply bind_Ok_inv. exists tt, w4. split; [exact H4|].
      apply bind_Ok_inv. exists m, w5. split; [exact H5|].
      apply bind_Ok_inv. exists tt, w6. split; [exact H6|].
      exact H7.
  - intros e He. unfold update_3d_warp. cbv zeta. now apply bind_Raise.
  - intros Hw.
    destruct (update_3d_warp_redrawn v w Hw) as [mr [mw [_ [_ Hrun]]]].
    eexists. split; [exact Hrun | reflexivity].
  - apply player_values_representable.
Qed.

Lemma callback_single_path_witness :
  (forall t1 t2,
      ((exists a w', time_function t1 initial = Ok (a, w')) <->
       (exists a w', time_function t2 initial = Ok (a, w'))) /\
      (forall e, time_function t1 initial = Raise e <->
                 time_function t2 initial = Raise e)) /\
  (forall w',
      update_3d_warp 7 initial = Ok (tt, w') <->
      exists a w1 l w2 w3 w4 m w5 w6,
        time_function (IZR 7 / 5) initial = Ok (a, w1) /\
        flatten a w1 = Ok (l, w2) /\
        pv.append id_mesh_ref l "scalars" w2 = Ok (tt, w3) /\
        pv.append id_mesh_warped l "scalars" w3 = Ok (tt, w4) /\
        pv.warp_by_scalar id_mesh_ref 0.5 w4 = Ok (m, w5) /\
        pv.set_points id_mesh_warped (points m) w5 = Ok (tt, w6) /\
        pn.synchronize w6 = Ok (tt, w')) /\
  (forall e, time_function (IZR 7 / 5) initial = Raise e ->
             update_3d_warp 7 initial = Raise e) /\
  (ready initial ->
   exists w', update_3d_warp 7 initial = Ok (tt, w') /\
              log w' = log initial ++ redraw_calls 7 (length (heap initial))) /\
  (forall u : Z, (0 <= u <= 50)%Z -> time_representable u).
Proof.
  apply (callback_single_path 7 initial).
  unfold time_representable. vm_compute. reflexivity.
Defined.

(** ** The callback at the player's initial value *)

Lemma points_structured (pts : list point) (pa : gmap string nat) :
  points (mkMesh (Structured pts) pa) = pts.
Proof. reflexivity. Qed.

Lemma coordinate_0 : coordinate 0 = -4.
Proof. unfold coordinate. cbn [INR]. lra. Qed.

Lemma coordinate_51 : coordinate 51 = 0.08.
Proof.
  unfold coordinate. rewrite !INR_IZR_INZ.
  change (Z.of_nat 51) with 51%Z. change (Z.of_nat (101 - 1)) with 100%Z. lra.
Qed.

(** The field at time 0 at the grid point [xvals[51] = 0.08],
    [yvals[0] = -4], which is entry [0 + 51 * 101] of the flattened array. *)
Lemma field_data_0_sample :
  field_data 0 !! (0 + 51 * 101)%nat = Some (sin 0.32).
Proof.
  destruct (shape_repeat_dims (field 0) 101 100 (shape_field 0)) as [Hc Hl].
  unfold field_data.
  replace (0 + 51 * 101)%nat with (0 + 51 * length (field 0))%nat
    by (rewrite Hl; reflexivity).
  apply lookup_flatten_F; [rewrite Hc; lia|].
  rewrite entry_field.
  rewrite (entry_grid_ys 0 51 (coordinate 51) (coordinate 0)),
          (entry_grid_xs 0 51 (coordinate 51) (coordinate 0));
    try (apply lookup_grid_xvals; lia); try (apply lookup_grid_yvals; lia).
  unfold closed_form. rewrite coordinate_0, coordinate_51.
  do 2 f_equal. lra.
Qed.

Lemma sin_sample_pos : 0 < sin 0.32.
Proof. apply sin_gt_0; [lra|]. pose proof PI2_3_2. lra. Qed.

Lemma lookup_points_cell2_mesh_ref :
  exists p, points cell2_mesh_ref !! (0 + 51 * 101)%nat = Some p.
Proof.
  apply lookup_lt_is_Some. fold (n_points cell2_mesh_ref).
  unfold cell2_mesh_ref. rewrite n_points_uniform, n_uniform_grid.
  unfold n_grid. lia.
Qed.

Lemma frame_time_0 : frame_time 0 = 0.
Proof. unfold frame_time. lra. Qed.

(** The points line 62 creates the warped mesh with (factor 1) are not the
    points the notebook leaves and first renders (factor 0.5): the layout's
    own run of the callback replaces them before anything is shown. At the
    grid point above the two differ by [0.5 * sin 0.32]. *)
Lemma layout_replaces_created_points :
  mesh_warped created = Some created_mesh_warped /\
  mesh_warped initial = Some initial_mesh_warped /\
  points created_mesh_warped <> points initial_mesh_warped.
Proof.
  split; [reflexivity|]. split; [reflexivity|].
  unfold created_mesh_warped, initial_mesh_warped. rewrite !points_structured.
  fold (field_data (frame_time 0)). rewrite frame_time_0.
  intros Heq.
  destruct lookup_points_cell2_mesh_ref as [[[x y] z] Hp].
  apply (f_equal (fun l => l !! (0 + 51 * 101)%nat)) in Heq.
  rewrite !lookup_zip_with, Hp, field_data_0_sample in Heq.
  cbn in Heq. injection Heq as Hz.
  pose proof sin_sample_pos. lra.
Qed.


(** ** The order of the setup *)

(** Counterexample to C7 as stated: the second cell ends by displaying a
    pane on the plotter of the reference mesh, which is call 7 of the
    setup; the warp is call 8. *)
Lemma setup_renders_before_warp :
  notebook empty_world = Ok (tt, initial) /\
  log initial !! 7%nat = Some (call_display id_pl_ref) /\
  renders (call_display id_pl_ref) = true /\
  log initial !! 8%nat = Some (call_warp_by_scalar id_mesh_ref 1) /\
  ~ setup_order_as_stated (log initial).
Proof.
  split; [apply notebook_run|].
  split; [reflexivity|]. split; [reflexivity|]. split; [reflexivity|].
  intros [i [j [k [_ [_ [Hk [_ [_ Hr]]]]]]]].
  specialize (Hr 7%nat (call_display id_pl_ref) eq_refl eq_refl).
  do 7 (destruct k as [|k]; [discriminate Hk|]).
  lia.
Qed.

(** C7, amended. The setup computes the field at time 0, appends it to the
    reference mesh as ['scalars'], and only then derives the warped mesh
    from the reference mesh by the warp routine (factor 1), before any
    rendering of the warped mesh; the one rendering that precedes the warp
    is the display of the reference mesh in a pane of its own, with which
    the second cell ends. *)
Theorem setup_order :
  exists w a w1 mw0 w2,
    notebook empty_world = Ok (tt, w) /\
    log w !! 1%nat = Some (call_time_function 0) /\
    log w !! 3%nat = Some (call_append id_mesh_ref 0 "scalars") /\
    log w !! 8%nat = Some (call_warp_by_scalar id_mesh_ref 1) /\
    (forall n c, log w !! n = Some c -> renders c = true ->
                 (n = 7%nat /\ c = call_display id_pl_ref) \/ (8 < n)%nat) /\
    cell2 empty_world = Ok (tt, after_cell2) /\
    time_function 0 after_cell2 = Ok (a, w1) /\
    mesh_ref after_cell2 = Some cell2_mesh_ref /\
    point_arrays cell2_mesh_ref !! "scalars" = Some 0%nat /\
    heap after_cell2 !! 0%nat = Some (np.flatten_F a) /\
    pv.warp_by_scalar id_mesh_ref 1 after_cell2 = Ok (mw0, w2) /\
    points mw0 =
      zip_with (warp_point 1) (points cell2_mesh_ref) (np.flatten_F a).
Proof.
  exists initial, (field 0),
    (set_log (log after_cell2 ++ [call_time_function 0]) after_cell2).
  eexists _, _.
  split; [apply notebook_run|].
  split; [reflexivity|]. split; [reflexivity|]. split; [reflexivity|].
  split.
  { intros n c Hn Hc.
    do 21 (destruct n as [|n];
           [injection Hn as <-;
            first [discriminate Hc | left; now split | right; lia]|]).
    discriminate Hn. }
  split; [apply cell2_run|].
  split; [apply time_function_run; constructor; reflexivity|].
  split; [reflexivity|]. split; [reflexivity|]. split; [reflexivity|].
  split.
  - unfold pv.warp_by_scalar, after_cell2, cell2_mesh_ref. kernel_step.
    rewrite lookup_insert_eq. kernel_step. reflexivity.
  - reflexivity.
Qed.

(** * Further properties *)

(** ** The coordinates *)

Lemma INR_100 : INR 100 = 100.
Proof. rewrite INR_IZR_INZ. reflexivity. Qed.

Lemma lookup_linspace_last (a b : R) (n : nat) :
  (1 < n)%nat -> np.linspace a b n !! (n - 1)%nat = Some b.
Proof.
  intros Hn. unfold np.linspace.
  assert (H1 : (1 <? n)%nat = true) by (apply Nat.ltb_lt; lia).
  rewrite H1. apply list_lookup_insert_eq.
  destruct (0 <? n - 1)%nat; rewrite !length_map, length_seq; lia.
Qed.

Lemma lookup_grid_xvals_all (j : nat) :
  (j < 101)%nat -> grid_xvals !! j = Some (-4 + 0.08 * INR j).
Proof.
  intros Hj. destruct (decide (j = 100%nat)) as [->|Hne].
  - change 100%nat with (101 - 1)%nat at 1.
    unfold grid_xvals. rewrite lookup_linspace_last by lia.
    f_equal. rewrite INR_100. lra.
  - rewrite lookup_grid_xvals by lia. f_equal.
    unfold coordinate. change (101 - 1)%nat with 100%nat.
    rewrite INR_100. lra.
Qed.

Lemma lookup_grid_yvals_all (i : nat) :
  (i < 101)%nat -> grid_yvals !! i = Some (-4 + 0.08 * INR i).
Proof. apply lookup_grid_xvals_all. Qed.

Lemma fold_left_Rmin_lower (l : list R) (m : R) :
  Forall (fun v => m <= v) l -> fold_left Rmin l m = m.
Proof.
  induction 1 as [|v l Hv _ IH]; cbn [fold_left]; [reflexivity|].
  rewrite Rmin_left by exact Hv. exact IH.
Qed.

Lemma list_min_grid_xvals : list_min grid_xvals = -4.
Proof.
  pose proof (lookup_grid_xvals_all 0 ltac:(lia)) as H0.
  assert (Hall : Forall (fun v => -4 <= v) grid_xvals).
  { apply Forall_lookup. intros i x Hx.
    assert (Hi : (i < 101)%nat)
      by (rewrite <- length_grid_xvals; eapply lookup_lt_Some, Hx).
    rewrite lookup_grid_xvals_all in Hx by exact Hi. injection Hx as <-.
    pose proof (pos_INR i). lra. }
  replace (-4 + 0.08 * INR 0) with (-4) in H0 by (cbn [INR]; lra).
  destruct grid_xvals as [|v l]; [discriminate H0|].
  cbn in H0. injection H0 as ->.
  cbn [list_min]. apply fold_left_Rmin_lower.
  now inversion Hall.
Qed.

Lemma list_min_grid_yvals : list_min grid_yvals = -4.
Proof. exact list_min_grid_xvals. Qed.

Lemma coordinate_spacing : coordinate 1 - coordinate 0 = 0.08.
Proof.
  unfold coordinate. change (101 - 1)%nat with 100%nat.
  rewrite INR_100. cbn [INR]. lra.
Qed.

(** ** The points of the reference mesh *)

Lemma grid_index_split (ix iy : nat) :
  (ix < 101)%nat -> (iy < 101)%nat ->
  ((ix + iy * 101) mod 101 = ix /\
   ((ix + iy * 101) / 101) mod 101 = iy /\
   (ix + iy * 101) / (101 * 101) = 0)%nat.
Proof.
  intros Hx Hy.
  rewrite Nat.Div0.mod_add, Nat.div_add by lia.
  rewrite (Nat.mod_small ix), (Nat.div_small ix) by exact Hx.
  rewrite Nat.add_0_l, (Nat.mod_small iy) by exact Hy.
  split; [reflexivity|]. split; [reflexivity|].
  apply Nat.div_small. nia.
Qed.

Lemma lookup_points_initial_mesh_ref_grid (ix iy : nat) :
  (ix < 101)%nat -> (iy < 101)%nat ->
  points initial_mesh_ref !! (ix + iy * 101)%nat =
  Some (-4 + 0.08 * INR ix, -4 + 0.08 * INR iy, 0).
Proof.
  intros Hx Hy.
  destruct (grid_index_split ix iy Hx Hy) as [H1 [H2 H3]].
  unfold points, initial_mesh_ref, cell2_mesh_ref. cbn [geom].
  rewrite list_lookup_fmap.
  assert (Hs : seq 0 (n_uniform (101, 101, 1)%nat) !! (ix + iy * 101)%nat
               = Some (ix + iy * 101)%nat).
  { apply lookup_seq. split; [reflexivity|]. rewrite n_uniform_grid.
    unfold n_grid. nia. }
  rewrite Hs. cbn [fmap option_fmap option_map]. f_equal.
  unfold uniform_point. rewrite H1, H2, H3.
  rewrite list_min_grid_xvals, list_min_grid_yvals, coordinate_spacing.
  cbn [INR]. f_equal; [f_equal|]; lra.
Qed.

Lemma points_same_geom (m m' : Mesh) : geom m = geom m' -> points m = points m'.
Proof. unfold points. now intros ->. Qed.


Lemma initial_settled : settled initial.
Proof.
  constructor; [apply initial_ready|].
  eexists. reflexivity.
Qed.

Lemma redrawn_settled (v : Z) (w : World) (mr mw : Mesh) :
  settled w -> mesh_ref w = Some mr -> mesh_warped w = Some mw ->
  settled (redrawn v mr mw w).
Proof.
  intros [Hw [pa Hpa]] Hmr Hmw. constructor.
  - now apply redrawn_ready.
  - rewrite Hmr in Hpa. injection Hpa as ->.
    eexists. reflexivity.
Qed.

Lemma update_3d_warp_settled (v : Z) (w : World) :
  settled w ->
  exists mr mw,
    mesh_ref w = Some mr /\ mesh_warped w = Some mw /\
    geom mr = geom initial_mesh_ref /\
    update_3d_warp v w = Ok (tt, redrawn v mr mw w) /\
    settled (redrawn v mr mw w).
Proof.
  intros Hs.
  destruct (update_3d_warp_redrawn v w (settled_ready w Hs))
    as [mr [mw [Hmr [Hmw Hrun]]]].
  exists mr, mw. repeat (split; [assumption|]).
  split; [|split; [exact Hrun | now apply redrawn_settled]].
  destruct (settled_ref w Hs) as [pa Hpa].
  rewrite Hmr in Hpa. now injection Hpa as ->.
Qed.

Lemma play_settled (vs : list Z) (w : World) :
  settled w -> exists w', play vs w = Ok (tt, w') /\ settled w'.
Proof.
  revert w. induction vs as [|v vs IH]; intros w Hw.
  - exists w. split; [reflexivity | exact Hw].
  - destruct (update_3d_warp_settled v w Hw) as [mr [mw [_ [_ [_ [H1 Hw1]]]]]].
    destruct (IH _ Hw1) as [w2 [H2 Hw2]].
    exists w2. split; [|exact Hw2].
    cbn [play]. unfold bind. now rewrite H1.
Qed.

Lemma play_app (vs us : list Z) (w : World) :
  play (vs ++ us) w = bind (play vs) (fun _ => play us) w.
Proof.
  revert w. induction vs as [|v vs IH]; intros w; [reflexivity|].
  cbn [app play]. unfold bind.
  destruct (update_3d_warp v w) as [[[] w1]|e]; [|reflexivity].
  rewrite IH. reflexivity.
Qed.

Lemma session_settled (vs : list Z) :
  exists w, session vs empty_world = Ok (tt, w) /\ settled w.
Proof.
  destruct (play_settled vs initial initial_settled) as [w [H Hw]].
  exists w. split; [|exact Hw].
  unfold session, bind. now rewrite notebook_run.
Qed.

(** A session that ends with the player value [v]: the state before the
    last run is settled and the last run leads to the state [redrawn]. *)
Lemma session_last (vs : list Z) (v : Z) :
  exists w mr mw,
    settled w /\ mesh_ref w = Some mr /\ mesh_warped w = Some mw /\
    geom mr = geom initial_mesh_ref /\
    session (vs ++ [v]) empty_world = Ok (tt, redrawn v mr mw w).
Proof.
  destruct (play_settled vs initial initial_settled) as [w [H Hw]].
  destruct (update_3d_warp_settled v w Hw) as [mr [mw [Hmr [Hmw [Hg [Hrun _]]]]]].
  exists w, mr, mw. repeat (split; [assumption|]).
  unfold session, bind. rewrite notebook_run, play_app.
  unfold bind. rewrite H. cbn [play]. unfold bind. now rewrite Hrun.
Qed.

(** ** The surface *)

Lemma lookup_field_data_grid (t : R) (ix iy : nat) :
  (ix < 101)%nat -> (iy < 101)%nat ->
  field_data t !! (ix + iy * 101)%nat =
  Some (sin ((((-4 + 0.08 * INR ix) / 2) ^ 2 + t) * (-4 + 0.08 * INR iy))).
Proof.
  intros Hx Hy.
  destruct (shape_repeat_dims (field t) 101 100 (shape_field t)) as [Hc Hl].
  unfold field_data. rewrite <- Hl at 1.
  apply lookup_flatten_F; [rewrite Hc; exact Hy|].
  rewrite entry_field.
  rewrite (entry_grid_ys ix iy (-4 + 0.08 * INR iy) (-4 + 0.08 * INR ix)),
          (entry_grid_xs ix iy (-4 + 0.08 * INR iy) (-4 + 0.08 * INR ix));
    try (now apply lookup_grid_xvals_all); try (now apply lookup_grid_yvals_all).
  reflexivity.
Qed.

Lemma lookup_warp_grid (factor t : R) (ix iy : nat) :
  (ix < 101)%nat -> (iy < 101)%nat ->
  zip_with (warp_point factor) (points initial_mesh_ref) (field_data t)
    !! (ix + iy * 101)%nat =
  Some (surface_point factor t (-4 + 0.08 * INR ix) (-4 + 0.08 * INR iy)).
Proof.
  intros Hx Hy. rewrite lookup_zip_with.
  rewrite lookup_points_initial_mesh_ref_grid by assumption.
  rewrite lookup_field_data_grid by assumption.
  cbn [mbind option_bind]. unfold warp_point, surface_point.
  do 2 f_equal. lra.
Qed.

(** X2. What the animation shows: after a session that ends with the
    player value [v], the point of the warped mesh over the grid point
    [(X, Y) = (xvals[ix], yvals[iy])] is
    [(X, Y, 0.5 * sin (((X / 2) ^ 2 + v / 5) * Y))]. Column-major
    flattening of the row-per-y field array makes the first grid axis the
    squared one. *)
Theorem warped_surface_after_callback (vs : list Z) (v : Z) (ix iy : nat) :
  (ix < 101)%nat -> (iy < 101)%nat ->
  exists w mw X Y,
    session (vs ++ [v]) empty_world = Ok (tt, w) /\
    mesh_warped w = Some mw /\
    grid_xvals !! ix = Some X /\ grid_yvals !! iy = Some Y /\
    points mw !! (ix + iy * 101)%nat =
      Some (X, Y, 0.5 * sin (((X / 2) ^ 2 + IZR v / 5) * Y)).
Proof.
  intros Hx Hy.
  destruct (session_last vs v) as [w [mr [mw [_ [_ [_ [Hg Hrun]]]]]]].
  eexists _, _, (-4 + 0.08 * INR ix), (-4 + 0.08 * INR iy).
  split; [exact Hrun|]. split; [reflexivity|].
  split; [now apply lookup_grid_xvals_all|].
  split; [now apply lookup_grid_yvals_all|].
  rewrite points_structured, (points_same_geom mr initial_mesh_ref Hg).
  fold (field_data (frame_time v)).
  now apply (lookup_warp_grid 0.5 (frame_time v)).
Qed.

Lemma warped_surface_after_callback_witness :
  exists w mw X Y,
    session ([3; 7] ++ [12])%Z empty_world = Ok (tt, w) /\
    mesh_warped w = Some mw /\
    grid_xvals !! 2%nat = Some X /\ grid_yvals !! 5%nat = Some Y /\
    points mw !! (2 + 5 * 101)%nat =
      Some (X, Y, 0.5 * sin (((X / 2) ^ 2 + IZR 12 / 5) * Y)).
Proof.
  apply (warped_surface_after_callback [3; 7]%Z 12 2 5); lia.
Defined.

(** X3. The surface the notebook leaves: once both cells have run, the
    point of the warped mesh over [(X, Y) = (xvals[ix], yvals[iy])] is
    [(X, Y, 0.5 * sin ((X / 2) ^ 2 * Y))], the time-0 field at half
    height. The layout built in the last line has run the callback for the
    player's value 0 and so replaced the full-height points of line 62. *)
Theorem warped_surface_initial (ix iy : nat) :
  (ix < 101)%nat -> (iy < 101)%nat ->
  exists w mw X Y,
    notebook empty_world = Ok (tt, w) /\
    mesh_warped w = Some mw /\
    grid_xvals !! ix = Some X /\ grid_yvals !! iy = Some Y /\
    points mw !! (ix + iy * 101)%nat =
      Some (X, Y, 0.5 * sin ((X / 2) ^ 2 * Y)).
Proof.
  intros Hx Hy.
  exists initial, initial_mesh_warped,
    (-4 + 0.08 * INR ix), (-4 + 0.08 * INR iy).
  split; [apply notebook_run|]. split; [reflexivity|].
  split; [now apply lookup_grid_xvals_all|].
  split; [now apply lookup_grid_yvals_all|].
  unfold initial_mesh_warped. rewrite points_structured.
  fold (field_data (frame_time 0)). rewrite frame_time_0.
  change (points cell2_mesh_ref) with (points initial_mesh_ref).
  rewrite (lookup_warp_grid 0.5 0) by assumption.
  unfold surface_point. do 3 f_equal. f_equal. lra.
Qed.

Lemma warped_surface_initial_witness :
  exists w mw X Y,
    notebook empty_world = Ok (tt, w) /\
    mesh_warped w = Some mw /\
    grid_xvals !! 2%nat = Some X /\ grid_yvals !! 5%nat = Some Y /\
    points mw !! (2 + 5 * 101)%nat =
      Some (X, Y, 0.5 * sin ((X / 2) ^ 2 * Y)).
Proof.
  apply (warped_surface_initial 2 5); lia.
Defined.






(** X5. The view depends on the last player value only: whatever values
    the callback ran for before, after a run for [v] the warped mesh has
    the points of the reference grid warped by the field at time [v / 5]
    with factor 0.5, and the pane has serialised exactly these points with
    exactly this field. Two sessions that end with the same value end with
    the same warped points and the same pane. *)
Theorem view_depends_on_last_frame (vs1 vs2 : list Z) (v : Z) :
  exists w1 w2 mw1 mw2,
    session (vs1 ++ [v]) empty_world = Ok (tt, w1) /\
    session (vs2 ++ [v]) empty_world = Ok (tt, w2) /\
    mesh_warped w1 = Some mw1 /\ mesh_warped w2 = Some mw2 /\
    points mw1 =
      zip_with (warp_point 0.5) (points initial_mesh_ref)
               (np.flatten_F (field (IZR v / 5))) /\
    vtkpan w1 =
      Some (mkPane id_pl
              (Some [(points mw1, np.flatten_F (field (IZR v / 5)))])) /\
    points mw2 = points mw1 /\ vtkpan w2 = vtkpan w1.
Proof.
  destruct (session_last vs1 v) as [w1 [mr1 [mw1 [_ [_ [_ [Hg1 Hrun1]]]]]]].
  destruct (session_last vs2 v) as [w2 [mr2 [mw2 [_ [_ [_ [Hg2 Hrun2]]]]]]].
  eexists _, _, _, _.
  split; [exact Hrun1|]. split; [exact Hrun2|].
  split; [reflexivity|]. split; [reflexivity|].
  rewrite !points_structured.
  unfold redrawn. cbn [vtkpan].
  rewrite (points_same_geom mr1 initial_mesh_ref Hg1).
  rewrite (points_same_geom mr2 initial_mesh_ref Hg2).
  repeat (split; [reflexivity|]). reflexivity.
Qed.

(** ** The store and the log of a session *)

Lemma length_play_calls (l : nat) (vs : list Z) :
  length (play_calls l vs) = (7 * length vs)%nat.
Proof.
  revert l. induction vs as [|v vs IH]; intros l; [reflexivity|].
  cbn [play_calls]. rewrite length_app, IH. cbn [length redraw_calls]. lia.
Qed.

Lemma play_accounts (vs : list Z) (w : World) :
  ready w ->
  exists w',
    play vs w = Ok (tt, w') /\ ready w' /\
    heap w' = heap w ++ map (fun v => field_data (frame_time v)) vs /\
    log w' = log w ++ play_calls (length (heap w)) vs /\
    (vs <> [] ->
     exists mr mw,
       mesh_ref w' = Some mr /\ mesh_warped w' = Some mw /\
       point_arrays mr !! "scalars" = Some (length (heap w') - 1)%nat /\
       point_arrays mw !! "scalars" = Some (length (heap w') - 1)%nat).
Proof.
  revert w. induction vs as [|v vs IH]; intros w Hw.
  - exists w. split; [reflexivity|]. split; [exact Hw|].
    rewrite !app_nil_r. split; [reflexivity|]. split; [reflexivity|]. 
    intros H. now contradiction H.
  - destruct (update_3d_warp_redrawn v w Hw) as [mr [mw [Hmr [Hmw Hrun]]]].
    pose proof (redrawn_ready v w mr mw Hw Hmr Hmw) as Hw1.
    destruct (IH _ Hw1) as [w2 [H2 [Hw2 [Hh [Hl Hs]]]]].
    exists w2. split; [cbn [play]; unfold bind; now rewrite Hrun|].
    split; [exact Hw2|].
    assert (Hlen : length (heap (redrawn v mr mw w)) = S (length (heap w))).
    { cbn [redrawn heap]. rewrite length_app. cbn [length]. lia. }
    split; [rewrite Hh; cbn [redrawn heap map]; now rewrite <- app_assoc|].
    split.
    { rewrite Hl, Hlen. cbn [redrawn log play_calls]. now rewrite <- app_assoc. }
    intros _. destruct vs as [|u vs].
    + injection H2 as <-. eexists _, _.
      split; [reflexivity|]. split; [reflexivity|].
      rewrite Hlen. replace (S (length (heap w)) - 1)%nat with (length (heap w)) by lia.
      split; apply lookup_insert_eq.
    + apply Hs. discriminate.
Qed.

(** X6. Every run of the callback allocates exactly one new array and
    overwrites none: after the notebook and runs for the player values
    [vs], the store holds the field at time 0 twice (the array of the
    second cell and the array of the run the layout makes at value 0)
    followed, in order, by the field at [v / 5] for every [v] of [vs]; the
    log is the 21 calls of the setup followed by the 7 calls of every run;
    and both meshes refer to the newest array. *)
Theorem session_store_and_log (vs : list Z) :
  exists w mr mw,
    session vs empty_world = Ok (tt, w) /\
    heap w = np.flatten_F (field 0)
               :: np.flatten_F (field (IZR 0 / 5))
               :: map (fun v => np.flatten_F (field (IZR v / 5))) vs /\
    log w = setup_calls ++ play_calls 2 vs /\
    length (log w) = (21 + 7 * length vs)%nat /\
    mesh_ref w = Some mr /\ mesh_warped w = Some mw /\
    point_arrays mr !! "scalars" = Some (1 + length vs)%nat /\
    point_arrays mw !! "scalars" = Some (1 + length vs)%nat.
Proof.
  destruct (play_accounts vs initial initial_ready) as [w [H [_ [Hh [Hl Hs]]]]].
  assert (Hlen : length (heap w) = S (S (length vs))).
  { rewrite Hh, length_app, length_map. reflexivity. }
  assert (Hrun : session vs empty_world = Ok (tt, w)).
  { unfold session, bind. now rewrite notebook_run. }
  destruct vs as [|v vs].
  - injection H as <-. exists initial, initial_mesh_ref, initial_mesh_warped.
    split; [exact Hrun|]. repeat (split; [reflexivity|]). reflexivity.
  - destruct Hs as [mr [mw [Hmr [Hmw [Hr Hm]]]]]; [discriminate|].
    exists w, mr, mw. split; [exact Hrun|].
    split; [exact Hh|]. split; [exact Hl|].
    split; [rewrite Hl, length_app, length_play_calls; reflexivity|].
    split; [exact Hmr|]. split; [exact Hmw|].
    rewrite Hlen in Hr, Hm.
    replace (S (S (length (v :: vs))) - 1)%nat
      with (1 + length (v :: vs))%nat in Hr, Hm by lia.
    now split.
Qed.

(** ** What a run of the callback leaves alone *)

Section Preserve.

Variable Rel : World -> World -> Prop.
Hypothesis Rel_refl : forall w, Rel w w.
Hypothesis Rel_trans : forall w1 w2 w3, Rel w1 w2 -> Rel w2 w3 -> Rel w1 w3.

Lemma preserves_ret {A : Type} (a : A) : preserves Rel (ret a).
Proof. intros w a' w' H. injection H as _ <-. apply Rel_refl. Qed.

Lemma preserves_raise {A : Type} (e : exn) : preserves Rel (@raise A e).
Proof. intros w a w' H. discriminate. Qed.

Lemma preserves_lift {A : Type} (r : result A) : preserves Rel (lift r).
Proof.
  intros w a w' H. unfold lift in H. destruct r; [|discriminate].
  injection H as _ <-. apply Rel_refl.
Qed.

Lemma preserves_name {A : Type} (proj : World -> option A) (n : string) :
  preserves Rel (name proj n).
Proof.
  intros w a w' H. unfold name in H. destruct (proj w); [|discriminate].
  injection H as _ <-. apply Rel_refl.
Qed.

Lemma preserves_deref (l : nat) : preserves Rel (deref l).
Proof.
  intros w a w' H. unfold deref in H. destruct (heap w !! l); [|discriminate].
  injection H as _ <-. apply Rel_refl.
Qed.

Lemma preserves_bind {A B : Type} (c : M A) (k : A -> M B) :
  preserves Rel c -> (forall a, preserves Rel (k a)) -> preserves Rel (bind c k).
Proof.
  intros Hc Hk w b w' H.
  apply bind_Ok_inv in H as [a [w1 [H1 H2]]].
  eapply Rel_trans; [exact (Hc w a w1 H1) | exact (Hk a w1 b w' H2)].
Qed.

Lemma preserves_get_mesh (i : mesh_id) : preserves Rel (get_mesh i).
Proof. destruct i; apply preserves_name. Qed.

Lemma preserves_get_plotter (i : plotter_id) : preserves Rel (get_plotter i).
Proof. destruct i; apply preserves_name. Qed.

End Preserve.

Lemma grows_refl (w : World) : grows w w.
Proof. unfold grows. repeat split; reflexivity. Qed.

Lemma grows_trans (w1 w2 w3 : World) : grows w1 w2 -> grows w2 w3 -> grows w1 w3.
Proof.
  unfold grows.
  intros [A1 [B1 [C1 [D1 [E1 F1]]]]] [A2 [B2 [C2 [D2 [E2 F2]]]]].
  repeat split; try congruence; etrans; eassumption.
Qed.

Lemma grows_record (c : Call) : preserves grows (record c).
Proof.
  intros w a w' H. injection H as _ <-. unfold grows. cbn.
  repeat split; try reflexivity. now apply prefix_app_r.
Qed.

Lemma grows_alloc (d : list R) : preserves grows (alloc d).
Proof.
  intros w a w' H. injection H as _ <-. unfold grows. cbn.
  repeat split; try reflexivity. now apply prefix_app_r.
Qed.

Lemma grows_set_mesh_warped (m : Mesh) : preserves grows (assign set_mesh_warped m).
Proof.
  intros w a w' H. injection H as _ <-. unfold grows. cbn.
  repeat split; reflexivity.
Qed.

Lemma grows_set_vtkpan (p : Pane) : preserves grows (assign set_vtkpan p).
Proof.
  intros w a w' H. injection H as _ <-. unfold grows. cbn.
  repeat split; reflexivity.
Qed.

(** Appending an array to a mesh keeps the geometry of the mesh. *)
Lemma grows_put_same_geom (i : mesh_id) (m : Mesh) (pa : gmap string nat)
      (w w' : World) :
  get_mesh i w = Ok (m, w) ->
  put_mesh i (mkMesh (geom m) pa) w = Ok (tt, w') -> grows w w'.
Proof.
  intros Hg Hp. destruct i; cbn in Hg, Hp.
  - unfold name in Hg. destruct (mesh_ref w) as [m0|] eqn:Hm; [|discriminate].
    injection Hg as ->. injection Hp as <-. unfold grows. cbn.
    rewrite Hm. repeat split; reflexivity.
  - injection Hp as <-. unfold grows. cbn. repeat split; reflexivity.
Qed.

Lemma get_mesh_state (i : mesh_id) (w : World) (m : Mesh) (w' : World) :
  get_mesh i w = Ok (m, w') -> w' = w.
Proof.
  destruct i; cbn; unfold name;
    [destruct (mesh_ref w) | destruct (mesh_warped w)];
    intros H; try discriminate; now injection H.
Qed.

Lemma grows_append (i : mesh_id) (data : nat) (nm : string) :
  preserves grows (pv.append i data nm).
Proof.
  intros w [] w' H. unfold pv.append in H.
  apply bind_Ok_inv in H as [m [w1 [H1 H]]].
  pose proof (get_mesh_state i w m w1 H1) as ->.
  apply bind_Ok_inv in H as [[] [w2 [H2 H]]].
  apply bind_Ok_inv in H as [d [w3 [H3 H]]].
  pose proof (grows_record _ _ _ _ H2) as G2.
  pose proof (preserves_deref grows grows_refl _ _ _ _ H3) as G3.
  destruct (length d =? n_points m)%nat; [|discriminate].
  eapply grows_trans; [exact G2|]. eapply grows_trans; [exact G3|].
  injection H2 as <-.
  unfold deref in H3. destruct (heap _ !! data); [|discriminate].
  injection H3 as _ <-.
  eapply grows_put_same_geom; [|exact H].
  destruct i; cbn in H1 |- *; unfold name in *; cbn;
    [destruct (mesh_ref w) | destruct (mesh_warped w)];
    try discriminate; now injection H1 as ->.
Qed.

Lemma grows_ret {A : Type} (a : A) : preserves grows (ret a).
Proof. apply preserves_ret, grows_refl. Qed.

Lemma grows_raise {A : Type} (e : exn) : preserves grows (@raise A e).
Proof. apply preserves_raise. Qed.

Lemma grows_lift {A : Type} (r : result A) : preserves grows (lift r).
Proof. apply preserves_lift, grows_refl. Qed.

Lemma grows_name {A : Type} (proj : World -> option A) (n : string) :
  preserves grows (name proj n).
Proof. apply preserves_name, grows_refl. Qed.

Lemma grows_deref (l : nat) : preserves grows (deref l).
Proof. apply preserves_deref, grows_refl. Qed.

Lemma grows_get_mesh (i : mesh_id) : preserves grows (get_mesh i).
Proof. apply preserves_get_mesh, grows_refl. Qed.

Lemma grows_get_plotter (i : plotter_id) : preserves grows (get_plotter i).
Proof. apply preserves_get_plotter, grows_refl. Qed.

Lemma grows_bind {A B : Type} (c : M A) (k : A -> M B) :
  preserves grows c -> (forall a, preserves grows (k a)) ->
  preserves grows (bind c k).
Proof. apply preserves_bind, grows_trans. Qed.

Create HintDb grow.

#[local] Hint Resolve grows_ret grows_raise grows_lift grows_name grows_deref
  grows_get_mesh grows_get_plotter grows_record grows_alloc
  grows_set_mesh_warped grows_set_vtkpan grows_append : grow.

Ltac grow :=
  cbv zeta;
  repeat first
    [ solve [auto with grow]
    | apply grows_bind; [| intros ?]
    | match goal with
      | |- preserves grows (match ?x with _ => _ end) => destruct x
      | |- preserves grows (if ?x then _ else _) => destruct x
      end ].

Lemma grows_time_function (t : R) : preserves grows (time_function t).
Proof. unfold time_function. grow. Qed.

Lemma grows_flatten (a : list (list R)) : preserves grows (flatten a).
Proof. unfold flatten. grow. Qed.

Lemma grows_warp_by_scalar (i : mesh_id) (factor : R) :
  preserves grows (pv.warp_by_scalar i factor).
Proof. unfold pv.warp_by_scalar. grow. Qed.

Lemma grows_set_points_warped (pts : list point) :
  preserves grows (pv.set_points id_mesh_warped pts).
Proof. unfold pv.set_points. cbn [put_mesh]. grow. Qed.

Lemma grows_snapshot (ms : list mesh_id) : preserves grows (pn.snapshot ms).
Proof. induction ms as [|i ms IH]; cbn [pn.snapshot]; grow. Qed.

Lemma grows_synchronize : preserves grows pn.synchronize.
Proof. unfold pn.synchronize. pose proof grows_snapshot. grow. Qed.

#[local] Hint Resolve grows_time_function grows_flatten grows_warp_by_scalar
  grows_set_points_warped grows_snapshot grows_synchronize : grow.

Lemma grows_update_3d_warp (v : Z) : preserves grows (update_3d_warp v).
Proof. unfold update_3d_warp. grow. Qed.

Lemma grows_play (vs : list Z) : preserves grows (play vs).
Proof.
  induction vs as [|v vs IH]; cbn [play].
  - apply grows_ret.
  - apply grows_bind; [apply grows_update_3d_warp | intros _; exact IH].
Qed.

(** X7. What the callback never does, in any state whatsoever: a run that
    returns leaves the two plotters and the player bound as they were and
    the reference mesh on its geometry, and it neither removes nor changes
    an array of the store or an entry of the log: both only grow at the
    end. The same holds for any sequence of runs. *)
Theorem callback_leaves_alone (vs : list Z) (w w' : World) :
  play vs w = Ok (tt, w') ->
  pl_ref w' = pl_ref w /\ pl w' = pl w /\ frame w' = frame w /\
  geom <$> mesh_ref w' = geom <$> mesh_ref w /\
  (exists new, heap w' = heap w ++ new) /\
  (exists new, log w' = log w ++ new) /\
  (forall l d, heap w !! l = Some d -> heap w' !! l = Some d).
Proof.
  intros H. destruct (grows_play vs w tt w' H) as [A [B [C [D [[h E] [g F]]]]]].
  repeat (split; [assumption|]).
  split; [now exists h|]. split; [now exists g|].
  intros l d Hl. rewrite E. rewrite lookup_app_l; [exact Hl|].
  eapply lookup_lt_Some, Hl.
Qed.

Lemma callback_leaves_alone_witness :
  pl_ref (redrawn 7 initial_mesh_ref initial_mesh_warped initial) = pl_ref initial /\
  pl (redrawn 7 initial_mesh_ref initial_mesh_warped initial) = pl initial /\
  frame (redrawn 7 initial_mesh_ref initial_mesh_warped initial) = frame initial /\
  geom <$> mesh_ref (redrawn 7 initial_mesh_ref initial_mesh_warped initial)
    = geom <$> mesh_ref initial /\
  (exists new, heap (redrawn 7 initial_mesh_ref initial_mesh_warped initial)
               = heap initial ++ new) /\
  (exists new, log (redrawn 7 initial_mesh_ref initial_mesh_warped initial)
               = log initial ++ new) /\
  (forall l d, heap initial !! l = Some d ->
               heap (redrawn 7 initial_mesh_ref initial_mesh_warped initial) !! l
               = Some d).
Proof.
  apply (callback_leaves_alone [7%Z] initial).
  cbn [play]. unfold bind.
  rewrite (update_3d_warp_run 7 initial initial_mesh_ref initial_mesh_warped
             initial_ready eq_refl eq_refl).
  reflexivity.
Defined.

(** ** The field function on any grid *)

(** X8. The field function on any grid: whenever [alpha] is bound to a
    positive integer and [xs] and [ys] to arrays of one shape, in any state,
    [time_function t] returns an array of that shape whose entry [i, j] is
    [sin (((ys[i, j] / alpha) ^ alpha + t) * xs[i, j])], and it leaves the
    state as it was (but for its entry in the log): it reads the three
    globals at the time of the call and writes nothing. *)
Theorem time_function_any_grid (t : R) (w : World) (al : Z)
        (X Y : list (list R)) :
  alpha w = Some al -> (0 < al)%Z ->
  xs w = Some X -> ys w = Some Y -> np.shape X = np.shape Y ->
  exists a,
    time_function t w = Ok (a, set_log (log w ++ [call_time_function t]) w) /\
    np.shape a = np.shape X /\
    forall i j x y,
      entry X i j = Some x -> entry Y i j = Some y ->
      entry a i j = Some (sin ((powerRZ (y / IZR al) al + t) * x)).
Proof.
  intros Ha Hpos HX HY Hsh. world_fields w. subst.
  set (P := np.add (map (map (fun v => powerRZ v al))
                        (map (map (fun v => v / IZR al)) Y)) t).
  assert (HP : np.shape P = np.shape X).
  { unfold P, np.add. now rewrite !shape_map_map. }
  exists (np.sin (zip_with (zip_with Rmult) P X)).
  split; [|split].
  - unfold time_function. kernel_step.
    unfold np.true_divide, np.power.
    destruct (Z.eqb_spec al 0) as [->|_]; [lia|].
    destruct (Z.ltb_spec al 0) as [Hneg|_]; [lia|].
    cbn [andb]. kernel_step.
    unfold np.multiply. fold P.
    destruct (decide _) as [_|Hne]; [reflexivity | contradiction].
  - unfold np.sin. now rewrite shape_map_map, shape_zip_with.
  - intros i j x y Hx Hy. unfold np.sin, P, np.add.
    rewrite entry_map_map, entry_zip_with, !entry_map_map, Hx, Hy.
    reflexivity.
Qed.

Lemma time_function_any_grid_witness :
  exists a,
    time_function 1 toy_world =
      Ok (a, set_log (log toy_world ++ [call_time_function 1]) toy_world) /\
    np.shape a = np.shape [[1; 2]] /\
    forall i j x y,
      entry [[1; 2]] i j = Some x -> entry [[3; 4]] i j = Some y ->
      entry a i j = Some (sin ((powerRZ (y / IZR 3) 3 + 1) * x)).
Proof.
  apply (time_function_any_grid 1 toy_world 3 [[1; 2]] [[3; 4]]).
  - reflexivity.
  - lia.
  - reflexivity.
  - reflexivity.
  - reflexivity.
Defined.

(** ** Runs of the callback that raise *)

(** X10. The callback reads its globals when it runs. With the grid and
    the reference mesh in place but [mesh_warped] not bound, a run computes
    the field, appends it to the reference mesh and then raises
    [NameError] for [mesh_warped]; nothing catches it. *)
Theorem callback_without_warped_mesh (v : Z) (w : World) (mr : Mesh) :
  grid_bound w -> mesh_ref w = Some mr -> n_points mr = n_grid ->
  mesh_warped w = None ->
  update_3d_warp v w = Raise (NameError "mesh_warped") /\
  exists a w1 l w2 w3,
    time_function (IZR v / 5) w = Ok (a, w1) /\
    flatten a w1 = Ok (l, w2) /\
    pv.append id_mesh_ref l "scalars" w2 = Ok (tt, w3) /\
    pv.append id_mesh_warped l "scalars" w3 = Raise (NameError "mesh_warped").
Proof.
  intros Hg Hmr Hn Hmw.
  assert (H1 := time_function_run (IZR v / 5) w Hg).
  unfold update_3d_warp. cbv zeta. unfold bind at 1. rewrite H1.
  world_fields w. destruct mr as [g pa]. subst.
  split.
  - unfold flatten, pv.append.
    repeat (kernel_step;
            first [ rewrite list_lookup_middle by reflexivity
                  | rewrite length_flatten_field
                  | rewrite Hn
                  | rewrite Nat.eqb_refl ]).
    reflexivity.
  - eexists _, _, _, _, _.
    split; [reflexivity|].
    split; [unfold flatten; kernel_step; reflexivity|].
    split.
    + unfold pv.append. kernel_step.
      rewrite list_lookup_middle by reflexivity.
      rewrite length_flatten_field, Hn, Nat.eqb_refl. kernel_step. reflexivity.
    + unfold pv.append. kernel_step. reflexivity.
Qed.

Lemma callback_without_warped_mesh_witness :
  cell2 empty_world = Ok (tt, after_cell2) /\
  update_3d_warp 7 after_cell2 = Raise (NameError "mesh_warped") /\
  exists a w1 l w2 w3,
    time_function (IZR 7 / 5) after_cell2 = Ok (a, w1) /\
    flatten a w1 = Ok (l, w2) /\
    pv.append id_mesh_ref l "scalars" w2 = Ok (tt, w3) /\
    pv.append id_mesh_warped l "scalars" w3 = Raise (NameError "mesh_warped").
Proof.
  split; [apply cell2_run|].
  apply (callback_without_warped_mesh 7 after_cell2 cell2_mesh_ref).
  - constructor; reflexivity.
  - reflexivity.
  - unfold cell2_mesh_ref. rewrite n_points_uniform. reflexivity.
  - reflexivity.
Defined.

(** X11. The data array always has one entry per grid point, so a
    reference mesh with another number of points is refused: with the grid
    in place and [mesh_ref] bound to a mesh whose number of points is not
    101 * 101, every run of the callback raises the [ValueError] of the
    first [append]. *)
Theorem callback_mesh_size_mismatch (v : Z) (w : World) (mr : Mesh) :
  grid_bound w -> mesh_ref w = Some mr -> n_points mr <> n_grid ->
  update_3d_warp v w =
  Raise (ValueError "array length must match the number of points").
Proof.
  intros Hg Hmr Hn.
  assert (H1 := time_function_run (IZR v / 5) w Hg).
  unfold update_3d_warp. cbv zeta. unfold bind at 1. rewrite H1.
  world_fields w. destruct mr as [g pa]. subst.
  unfold flatten, pv.append. kernel_step.
  rewrite list_lookup_middle by reflexivity.
  rewrite length_flatten_field.
  destruct (Nat.eqb_spec n_grid (n_points (mkMesh g pa))) as [He|_].
  - now contradiction Hn.
  - reflexivity.
Qed.

Lemma callback_mesh_size_mismatch_witness :
  update_3d_warp 7 small_mesh_world =
  Raise (ValueError "array length must match the number of points").
Proof.
  apply (callback_mesh_size_mismatch 7 small_mesh_world
           (mkMesh (Uniform (2, 2, 1)%nat (1, 1, 1) (0, 0, 0)) ∅)).
  - constructor; reflexivity.
  - reflexivity.
  - rewrite n_points_uniform. unfold n_uniform, n_grid. lia.
Defined.
